(** * biblioteca_py.domain: a shallow embedding of the lending service

    The Python module [biblioteca_py/domain.py] keeps books, copies, readers
    and loans in an in-memory store and lets a [LibraryService] borrow and
    return copies (and the single original of a new release).  This file
    embeds the module function by function and proves the properties of the
    lending life cycle.

    Conventions of the embedding:
    - a [datetime.date] is its proleptic Gregorian ordinal ([date.toordinal()]),
      an integer between [MINORDINAL] and [MAXORDINAL]; [date + timedelta]
      raises [OverflowError] outside that range;
    - a [dict] whose iteration order the code relies on ([MemoryDb.loans]) is an
      insertion-ordered association list; the other dictionaries are [gmap]s
      and the sets are [gset]s;
    - every dictionary entry holds an object of its own, so that mutating the
      object found under a key is [alter] at that key.  In particular each
      reader has a list of [activeLoanIds] of its own: a borrow, which appends
      to the list in place, is described by what it does to the borrower, and
      the properties of what follows a borrow ([served],
      [same_but_other_readers]) leave the other readers free, so that they
      hold as well when readers were given one list object;
    - a [set] is iterated in one order, that of [elements]; what depends on
      the order is stated for some order of the elements, never that one;
    - the gateway is the [ConsoleEmailGateway] of the module, which accepts
      every message; a gateway whose [send_email] raises (the base class
      [NotificationGateway] does) is not represented;
    - methods run in a state-and-exception monad whose failures keep the state
      reached when the exception was raised, as a Python caller observes it. *)

From stdpp Require Import gmap strings list fin_maps pretty relations.
From Stdlib Require Import ZArith Lia.

Local Open Scope string_scope.
Local Open Scope Z_scope.

(** ** Dates *)

Definition date := Z.

Definition MINORDINAL : Z := 1.
Definition MAXORDINAL : Z := 3652059.

(** ** Exceptions *)

Inductive Fault :=
| COPY_NOT_FOUND
| READER_NOT_FOUND
| BOOK_NOT_FOUND
| LOAN_NOT_FOUND
| COPY_NOT_AVAILABLE
| COPY_NOT_LOANED
| ORIGINAL_ALREADY_BORROWED
| ORIGINAL_NOT_BORROWED
| NOT_NEW_RELEASE
| BORROW_FORBIDDEN.

Definition fault_message (f : Fault) : string :=
  match f with
  | COPY_NOT_FOUND => "COPY_NOT_FOUND"
  | READER_NOT_FOUND => "READER_NOT_FOUND"
  | BOOK_NOT_FOUND => "BOOK_NOT_FOUND"
  | LOAN_NOT_FOUND => "LOAN_NOT_FOUND"
  | COPY_NOT_AVAILABLE => "COPY_NOT_AVAILABLE"
  | COPY_NOT_LOANED => "COPY_NOT_LOANED"
  | ORIGINAL_ALREADY_BORROWED => "ORIGINAL_ALREADY_BORROWED"
  | ORIGINAL_NOT_BORROWED => "ORIGINAL_NOT_BORROWED"
  | NOT_NEW_RELEASE => "NOT_NEW_RELEASE"
  | BORROW_FORBIDDEN => "BORROW_FORBIDDEN"
  end.

(** [ValueError f] is [ValueError(fault_message f)]; [KeyError] and
    [OverflowError] are the exceptions the interpreter itself raises on a
    missing dictionary key and on a date out of range. *)
Inductive Exn :=
| ValueError (f : Fault)
| KeyError (k : string)
| OverflowError.

(** ** Domain entities *)

Module CopyStatus.
Definition IN_LIBRARY : string := "IN_LIBRARY".
Definition LOANED : string := "LOANED".
Definition RESERVED : string := "RESERVED".
Definition LATE : string := "LATE".
Definition REPAIR : string := "REPAIR".
End CopyStatus.

Module Author.
Record t := mk { fullName : string; birthDate : string }.
End Author.

Module Book.
Record t := mk {
  id : string;
  title : string;
  year : Z;
  author : Author.t;
  edition : string;
  isNewRelease : bool
}.
End Book.

Module Loan.
Record t := mk {
  copyId : string;
  bookId : string;
  readerId : string;
  start : date;
  due : date;
  returned : option date
}.

Definition set_returned (v : option date) (self : t) : t :=
  mk (copyId self) (bookId self) (readerId self) (start self) (due self) v.

Definition late_days (self : t) : Z :=
  match returned self with
  | None => 0
  | Some r => if due self <? r then r - due self else 0
  end.
End Loan.

Module Copy.
Record t := mk { id : string; bookId : string; status : string }.

Definition set_status (v : string) (self : t) : t :=
  mk (id self) (bookId self) v.
End Copy.

Module Reader.
Record t := mk {
  id : string;
  email : string;
  activeBanUntil : option date;
  activeLoanIds : list string
}.

Definition set_activeBanUntil (v : option date) (self : t) : t :=
  mk (id self) (email self) v (activeLoanIds self).

Definition set_activeLoanIds (v : list string) (self : t) : t :=
  mk (id self) (email self) (activeBanUntil self) v.

Definition can_borrow (self : t) (today : date) : bool :=
  let banned :=
    match activeBanUntil self with
    | None => false
    | Some b => today <=? b
    end in
  negb banned && (length (activeLoanIds self) <? 3)%nat.
End Reader.

(** ** Insertion-ordered dictionaries

    [MemoryDb.loans] is scanned with [for k, L in self.db.loans.items()], so
    its order matters: [d[k] = v] replaces the value of an existing key where
    it stands and puts a new key last. *)

Section Dict.
Context {V : Type}.

Fixpoint dict_get (k : string) (d : list (string * V)) : option V :=
  match d with
  | [] => None
  | (k', v) :: d' => if String.eqb k k' then Some v else dict_get k d'
  end.

Fixpoint dict_set (k : string) (v : V) (d : list (string * V)) : list (string * V) :=
  match d with
  | [] => [(k, v)]
  | (k', v') :: d' =>
      if String.eqb k k' then (k, v) :: d' else (k', v') :: dict_set k v d'
  end.

Fixpoint dict_alter (f : V → V) (k : string) (d : list (string * V)) : list (string * V) :=
  match d with
  | [] => []
  | (k', v) :: d' =>
      if String.eqb k k' then (k', f v) :: d' else (k', v) :: dict_alter f k d'
  end.

(** The loop [for k, v in d.items(): if p(v): found = k; break]. *)
Fixpoint dict_find (p : V → bool) (d : list (string * V)) : option string :=
  match d with
  | [] => None
  | (k, v) :: d' => if p v then Some k else dict_find p d'
  end.
End Dict.

(** ** The store and the notifier *)

Record MemoryDb := mkDb {
  books : gmap string Book.t;
  copies : gmap string Copy.t;
  readers : gmap string Reader.t;
  loans : list (string * Loan.t);
  newReleaseBorrowed : gset string
}.

(** The gateway of the module that delivers: [send_email] of
    [ConsoleEmailGateway] prints the message and returns. *)
Inductive NotificationGateway := ConsoleEmailGateway.

Record Email := mkEmail { to : string; subject : string; body : string }.

Record BioAlert := mkAlert {
  subs : gmap string (gset string);
  gateway : option NotificationGateway
}.

(** The process: the store a service works on, the [BioAlert] singleton and
    the messages handed to the gateway so far. *)
Record World := mkWorld {
  db : MemoryDb;
  alert : BioAlert;
  outbox : list Email
}.

Definition empty_db : MemoryDb := mkDb ∅ ∅ ∅ [] ∅.
Definition fresh_alert : BioAlert := mkAlert ∅ None.
Definition empty_world : World := mkWorld empty_db fresh_alert [].

(** ** The monad *)

Inductive Res (A : Type) :=
| Ok (a : A) (w : World)
| Raise (e : Exn) (w : World).
Arguments Ok {A} a w.
Arguments Raise {A} e w.

Definition M (A : Type) : Type := World → Res A.

#[export] Instance M_ret : MRet M := λ A a w, Ok a w.
#[export] Instance M_bind : MBind M := λ A B f m w,
  match m w with
  | Ok a w' => f a w'
  | Raise e w' => Raise e w'
  end.

Definition raise {A} (e : Exn) : M A := λ w, Raise e w.
Definition get_db : M MemoryDb := λ w, Ok (db w) w.
Definition get_alert : M BioAlert := λ w, Ok (alert w) w.
Definition modify_db (f : MemoryDb → MemoryDb) : M unit :=
  λ w, Ok tt (mkWorld (f (db w)) (alert w) (outbox w)).
Definition modify_alert (f : BioAlert → BioAlert) : M unit :=
  λ w, Ok tt (mkWorld (db w) (f (alert w)) (outbox w)).

Definition state_of {A} (r : Res A) : World :=
  match r with Ok _ w => w | Raise _ w => w end.

Fixpoint for_each {A} (l : list A) (f : A → M unit) : M unit :=
  match l with
  | [] => mret tt
  | x :: l' => f x ;; for_each l' f
  end.

(** [d + timedelta(days=n)]. *)
Definition add_days (d : date) (n : Z) : M date :=
  if (MINORDINAL <=? d + n) && (d + n <=? MAXORDINAL)
  then mret (d + n)
  else raise OverflowError.

(** In-place mutation of the objects held by the store. *)
Definition alter_copy (f : Copy.t → Copy.t) (k : string) : M unit :=
  modify_db (λ d, mkDb (books d) (alter f k (copies d)) (readers d) (loans d)
                       (newReleaseBorrowed d)).
Definition alter_reader (f : Reader.t → Reader.t) (k : string) : M unit :=
  modify_db (λ d, mkDb (books d) (copies d) (alter f k (readers d)) (loans d)
                       (newReleaseBorrowed d)).
Definition alter_loan (f : Loan.t → Loan.t) (k : string) : M unit :=
  modify_db (λ d, mkDb (books d) (copies d) (readers d) (dict_alter f k (loans d))
                       (newReleaseBorrowed d)).
Definition set_loan (k : string) (L : Loan.t) : M unit :=
  modify_db (λ d, mkDb (books d) (copies d) (readers d) (dict_set k L (loans d))
                       (newReleaseBorrowed d)).
Definition modify_newReleaseBorrowed (f : gset string → gset string) : M unit :=
  modify_db (λ d, mkDb (books d) (copies d) (readers d) (loans d)
                       (f (newReleaseBorrowed d))).

(** ** BioAlert *)

(** A lookup handed to [notify_available]: an adapter over the store, which
    returns a string or raises. *)
Definition Callback := string → MemoryDb → Exn + string.

Definition call (cb : Callback) (k : string) : M string :=
  λ w, match cb k (db w) with
       | inl e => Raise e w
       | inr v => Ok v w
       end.

Definition send_email (g : NotificationGateway) (to subject body : string) : M unit :=
  λ w, Ok tt (mkWorld (db w) (alert w) (outbox w ++ [mkEmail to subject body])).

Definition set_gateway (g : option NotificationGateway) : M unit :=
  modify_alert (λ a, mkAlert (subs a) g).

Definition subscribe (bookId readerId : string) : M unit :=
  modify_alert (λ a,
    mkAlert (<[bookId := default ∅ (subs a !! bookId) ∪ {[readerId]}]> (subs a))
            (gateway a)).

Definition notify_available (bookId : string)
    (get_email_by_reader get_book_title : Callback) : M unit :=
  a ← get_alert;
  match gateway a with
  | None => mret tt
  | Some g =>
      let ids := default ∅ (subs a !! bookId) in
      title ← call get_book_title bookId;
      for_each (elements ids) (λ rid,
        email ← call get_email_by_reader rid;
        send_email g email ("Disponible: " +:+ title) "Ya puedes solicitarlo")
  end.

Definition reset : M unit := modify_alert (λ _, mkAlert ∅ None).

(** ** LibraryService *)

(** [lambda rid: self.db.readers[rid].email] and
    [lambda bid: self.db.books[bid].title]. *)
Definition email_of_reader : Callback := λ rid d,
  match readers d !! rid with
  | Some r => inr (Reader.email r)
  | None => inl (KeyError rid)
  end.

Definition title_of_book : Callback := λ bid d,
  match books d !! bid with
  | Some b => inr (Book.title b)
  | None => inl (KeyError bid)
  end.

Definition lookup_loan (k : string) : M Loan.t :=
  d ← get_db;
  match dict_get k (loans d) with
  | Some L => mret L
  | None => raise (KeyError k)
  end.

Definition lookup_reader (k : string) : M Reader.t :=
  d ← get_db;
  match readers d !! k with
  | Some r => mret r
  | None => raise (KeyError k)
  end.

(** [f"L{len(self.db.loans)+1}"] *)
Definition next_loan_id (d : MemoryDb) : string :=
  "L" +:+ pretty (length (loans d) + 1)%nat.

Definition borrow_copy (copyId readerId : string) (today : date) : M string :=
  d ← get_db;
  match copies d !! copyId with
  | None => raise (ValueError COPY_NOT_FOUND)
  | Some c =>
  match readers d !! readerId with
  | None => raise (ValueError READER_NOT_FOUND)
  | Some r =>
      if negb (Reader.can_borrow r today) then raise (ValueError BORROW_FORBIDDEN)
      else if negb (String.eqb (Copy.status c) CopyStatus.IN_LIBRARY)
      then raise (ValueError COPY_NOT_AVAILABLE)
      else
        due ← add_days today 30;
        let loan := Loan.mk copyId (Copy.bookId c) readerId today due None in
        let loanId := next_loan_id d in
        set_loan loanId loan ;;
        alter_copy (Copy.set_status CopyStatus.LOANED) copyId ;;
        alter_reader (λ r, Reader.set_activeLoanIds (Reader.activeLoanIds r ++ [loanId]) r)
                     readerId ;;
        mret loanId
  end
  end.

Definition borrow_original_new_release (bookId readerId : string) (today : date)
    : M string :=
  d ← get_db;
  match books d !! bookId with
  | None => raise (ValueError BOOK_NOT_FOUND)
  | Some b =>
  match readers d !! readerId with
  | None => raise (ValueError READER_NOT_FOUND)
  | Some r =>
      if negb (Book.isNewRelease b) then raise (ValueError NOT_NEW_RELEASE)
      else if negb (Reader.can_borrow r today) then raise (ValueError BORROW_FORBIDDEN)
      else if bool_decide (bookId ∈ newReleaseBorrowed d)
      then raise (ValueError ORIGINAL_ALREADY_BORROWED)
      else
        due ← add_days today 30;
        let loan := Loan.mk "" bookId readerId today due None in
        let loanId := next_loan_id d in
        set_loan loanId loan ;;
        modify_newReleaseBorrowed (λ s, s ∪ {[bookId]}) ;;
        alter_reader (λ r, Reader.set_activeLoanIds (Reader.activeLoanIds r ++ [loanId]) r)
                     readerId ;;
        mret loanId
  end
  end.

(** The part the two return operations share, from [L.returned = when] to the
    rewrite of [R.activeLoanIds]; [release] is the statement in between
    ([c.status = IN_LIBRARY], or [newReleaseBorrowed.discard(bookId)]). *)
Definition close_loan (loanId rid : string) (when : date) (release : M unit) : M unit :=
  alter_loan (Loan.set_returned (Some when)) loanId ;;
  L ← lookup_loan loanId;
  let late := Loan.late_days L in
  (if 0 <? late
   then ban ← add_days when (2 * late);
        alter_reader (Reader.set_activeBanUntil (Some ban)) rid
   else mret tt) ;;
  release ;;
  alter_reader (λ R, Reader.set_activeLoanIds
                       (filter (λ x, x ≠ loanId) (Reader.activeLoanIds R)) R) rid.

(** The tests of the two loops that look for the loan to close:
    [L.copyId == copyId and L.returned is None], and
    [L.bookId == bookId and L.readerId == readerId and L.copyId == "" and
     L.returned is None]. *)
Definition open_loan_of_copy (copyId : string) (L : Loan.t) : bool :=
  String.eqb (Loan.copyId L) copyId && bool_decide (Loan.returned L = None).

Definition open_original_loan (bookId readerId : string) (L : Loan.t) : bool :=
  String.eqb (Loan.bookId L) bookId && String.eqb (Loan.readerId L) readerId
  && String.eqb (Loan.copyId L) "" && bool_decide (Loan.returned L = None).

Definition return_copy (copyId : string) (when : date) : M unit :=
  d ← get_db;
  match copies d !! copyId with
  | None => raise (ValueError COPY_NOT_FOUND)
  | Some c =>
      if negb (String.eqb (Copy.status c) CopyStatus.LOANED
               || String.eqb (Copy.status c) CopyStatus.LATE)
      then raise (ValueError COPY_NOT_LOANED)
      else
        match dict_find (open_loan_of_copy copyId) (loans d) with
        | None => raise (ValueError LOAN_NOT_FOUND)
        | Some loanId =>
            if String.eqb loanId "" then raise (ValueError LOAN_NOT_FOUND)
            else
              L ← lookup_loan loanId;
              _ ← lookup_reader (Loan.readerId L);
              close_loan loanId (Loan.readerId L) when
                (alter_copy (Copy.set_status CopyStatus.IN_LIBRARY) copyId) ;;
              notify_available (Loan.bookId L) email_of_reader title_of_book
        end
  end.

Definition return_original_new_release (bookId readerId : string) (when : date)
    : M unit :=
  d ← get_db;
  if bool_decide (bookId ∉ dom (books d)) then raise (ValueError BOOK_NOT_FOUND)
  else if bool_decide (readerId ∉ dom (readers d)) then raise (ValueError READER_NOT_FOUND)
  else if bool_decide (bookId ∉ newReleaseBorrowed d)
  then raise (ValueError ORIGINAL_NOT_BORROWED)
  else
    match dict_find (open_original_loan bookId readerId) (loans d) with
    | None => raise (ValueError LOAN_NOT_FOUND)
    | Some loanId =>
        if String.eqb loanId "" then raise (ValueError LOAN_NOT_FOUND)
        else
          _ ← lookup_loan loanId;
          _ ← lookup_reader readerId;
          close_loan loanId readerId when
            (modify_newReleaseBorrowed (λ s, s ∖ {[bookId]})) ;;
          notify_available bookId email_of_reader title_of_book
    end.

(** The four operations of the service, as a caller issues them. *)
Inductive Op :=
| BorrowCopy (copyId readerId : string) (today : date)
| BorrowOriginal (bookId readerId : string) (today : date)
| ReturnCopy (copyId : string) (when : date)
| ReturnOriginal (bookId readerId : string) (when : date).

Definition run_op (op : Op) : M (option string) :=
  match op with
  | BorrowCopy c r t => loanId ← borrow_copy c r t; mret (Some loanId)
  | BorrowOriginal b r t => loanId ← borrow_original_new_release b r t; mret (Some loanId)
  | ReturnCopy c t => return_copy c t ;; mret None
  | ReturnOriginal b r t => return_original_new_release b r t ;; mret None
  end.

(** One successful call takes the process from [w] to [w']. *)
Inductive step (w w' : World) : Prop :=
| step_ok (op : Op) (v : option string) : run_op op w = Ok v w' → step w w'.

(** ** The store of the test suite ([seed] in tests/test_biblioteca.py) *)

Definition seed_db : MemoryDb :=
  mkDb
    (<["B1" := Book.mk "B1" "Software Engineering" 2020
                 (Author.mk "Ian Sommerville" "1951-08-23") "10th" false]>
       (<["B2" := Book.mk "B2" "Clean C++ (New Release)" 2025
                    (Author.mk "Some Author" "1980-01-01") "1st" true]> ∅))
    (<["C1" := Copy.mk "C1" "B1" CopyStatus.IN_LIBRARY]>
       (<["C2" := Copy.mk "C2" "B1" CopyStatus.IN_LIBRARY]> ∅))
    (<["R1" := Reader.mk "R1" "alice@example.com" None []]>
       (<["R2" := Reader.mk "R2" "bob@example.com" None []]> ∅))
    [] ∅.

Definition seed : World := mkWorld seed_db fresh_alert [].

(** [date(2025, 10, 1).toordinal()] *)
Definition d_2025_10_01 : date := 739525.

(** ** The vocabulary of the properties *)

(** [raises_no_fault m]: whatever [m] raises, it is not one of the named
    faults. *)
Definition raises_no_fault {A} (m : M A) : Prop :=
  ∀ w e w', m w = Raise e w' → ∀ f, e ≠ ValueError f.

(** The message [notify_available] hands to the gateway for one subscriber. *)
Definition notice (title email : string) : Email :=
  mkEmail email ("Disponible: " +:+ title) "Ya puedes solicitarlo".

(** The reader record once one of their loans is closed on [when]: banned
    until [when] plus twice the late days if the loan is late, the ban left as
    it was otherwise, and the loan id dropped from the active loans. *)
Definition closed_reader (loanId : string) (due when : date) (R : Reader.t) : Reader.t :=
  Reader.mk (Reader.id R) (Reader.email R)
    (if due <? when then Some (when + 2 * (when - due)) else Reader.activeBanUntil R)
    (filter (λ x, x ≠ loanId) (Reader.activeLoanIds R)).

(** How a return on [when] of the loan [L] changes the borrower, from [R] to
    [R']: with [lateDays] the late days of the closed loan, a positive
    [lateDays] sets the ban to [when + 2 * lateDays], whatever it was, and a
    return on or before the due date has [lateDays = 0] and leaves the ban as
    it was. *)
Definition ban_rule (when : date) (L : Loan.t) (R R' : Reader.t) : Prop :=
  let lateDays := Loan.late_days (Loan.set_returned (Some when) L) in
  (0 < lateDays → Reader.activeBanUntil R' = Some (when + 2 * lateDays)) ∧
  (lateDays = 1 → Reader.activeBanUntil R' = Some (when + 2)) ∧
  (lateDays = 5 → Reader.activeBanUntil R' = Some (when + 10)) ∧
  (when ≤ Loan.due L →
   lateDays = 0 ∧ Reader.activeBanUntil R' = Reader.activeBanUntil R).

(** The loan ids the service has generated for a store that started without
    loans: L1, L2, ... in the order of creation. *)
Definition generated_ids (l : list (string * Loan.t)) : Prop :=
  l.*1 = (λ i : nat, "L" +:+ pretty i) <$> seq 1 (length l).


(** A loan of the original of [b] that is not returned: its [copyId] is the
    empty string. *)
Definition is_open_original (b : string) (L : Loan.t) : bool :=
  String.eqb (Loan.copyId L) "" && String.eqb (Loan.bookId L) b
  && bool_decide (Loan.returned L = None).

(** How many loans of the store pass the test [p]. *)
Fixpoint count_loans (p : Loan.t → bool) (l : list (string * Loan.t)) : nat :=
  match l with
  | [] => 0
  | (_, L) :: l' => (if p L then 1 else 0) + count_loans p l'
  end.

(** The store is consistent about originals: [loans] is a dictionary, no copy
    goes by the empty id (which marks the loan of an original), and a book
    has no open loan of its original unless it is in [newReleaseBorrowed], and
    then at most one. *)
Definition originals_consistent (d : MemoryDb) : Prop :=
  NoDup (loans d).*1 ∧
  copies d !! "" = None ∧
  ∀ b, (count_loans (is_open_original b) (loans d) ≤
        if bool_decide (b ∈ newReleaseBorrowed d) then 1 else 0)%nat.

(** The state a caller is left with after issuing [ops] one after the other,
    whether they succeed or raise. *)
Definition after (ops : list Op) (w : World) : World :=
  fold_left (λ w op, state_of (run_op op w)) ops w.

(** ** Scenarios on the store of the test suite *)

(** R1 borrows C1 on 2025-10-01; the loan is due on 2025-10-31. *)
Definition c1_on_loan : World := after [BorrowCopy "C1" "R1" d_2025_10_01] seed.

(** R1, who holds C1 (due 2025-10-31), is banned until 2026-01-01. *)
Definition c1_on_loan_r1_banned : World :=
  mkWorld
    (mkDb (books (db c1_on_loan)) (copies (db c1_on_loan))
          (alter (Reader.set_activeBanUntil (Some (d_2025_10_01 + 92))) "R1"
                 (readers (db c1_on_loan)))
          (loans (db c1_on_loan)) (newReleaseBorrowed (db c1_on_loan)))
    (alert c1_on_loan) (outbox c1_on_loan).

(** A store in which the copy C9, on loan to R1, belongs to a book the store
    does not hold, with a gateway configured. *)
Definition orphan_copy_world : World :=
  mkWorld
    (mkDb ∅ (<["C9" := Copy.mk "C9" "B9" CopyStatus.LOANED]> ∅)
          (<["R1" := Reader.mk "R1" "alice@example.com" None ["L1"]]> ∅)
          [("L1", Loan.mk "C9" "B9" "R1" d_2025_10_01 (d_2025_10_01 + 30) None)] ∅)
    (mkAlert ∅ (Some ConsoleEmailGateway)) [].

(** Bob and Alice have subscribed to B1 and the console gateway is set. *)
Definition subscribed_world : World :=
  state_of ((subscribe "B1" "R2" ;; subscribe "B1" "R1" ;;
             set_gateway (Some ConsoleEmailGateway)) seed).

(** A store restored with one historical loan, L2, the loan L1 having been
    pruned: C2 went to R2 and came back in time. *)
Definition restored_world : World :=
  mkWorld
    (mkDb (books seed_db) (copies seed_db) (readers seed_db)
          [("L2", Loan.mk "C2" "B1" "R2" (d_2025_10_01 - 60) (d_2025_10_01 - 30)
                          (Some (d_2025_10_01 - 40)))]
          ∅)
    fresh_alert [].

(** The store of [test_limite_3_prestamos]: the seed with the copies C3 and C4
    of B1. *)
Definition seed4 : World :=
  mkWorld
    (mkDb (books seed_db)
          (<["C4" := Copy.mk "C4" "B1" CopyStatus.IN_LIBRARY]>
             (<["C3" := Copy.mk "C3" "B1" CopyStatus.IN_LIBRARY]> (copies seed_db)))
          (readers seed_db) [] ∅)
    fresh_alert [].

(** R1 has borrowed C1, C2 and C3 there. *)
Definition r1_holds_three : World :=
  after [BorrowCopy "C1" "R1" d_2025_10_01; BorrowCopy "C2" "R1" d_2025_10_01;
         BorrowCopy "C3" "R1" d_2025_10_01] seed4.

(** R2 has borrowed the original of B2 on 2025-10-01. *)
Definition b2_on_loan : World := after [BorrowOriginal "B2" "R2" d_2025_10_01] seed.

(** While R2 holds the original of B2, R1 borrows C1 and returns it five days
    late, on 2025-11-05, which bans R1 until 2025-11-15. *)
Definition b2_on_loan_r1_banned : World :=
  after [BorrowCopy "C1" "R1" d_2025_10_01; ReturnCopy "C1" (d_2025_10_01 + 35)] b2_on_loan.

(** The seed with one more copy of B2, filed under the empty id. *)
Definition empty_copy_id_world : World :=
  mkWorld
    (mkDb (books seed_db) (<["" := Copy.mk "" "B2" CopyStatus.IN_LIBRARY]> (copies seed_db))
          (readers seed_db) [] ∅)
    fresh_alert [].

(** R2, who holds the original of B2 (due 2025-10-31), is banned until
    2026-01-01. *)
Definition b2_on_loan_r2_banned : World :=
  mkWorld
    (mkDb (books (db b2_on_loan)) (copies (db b2_on_loan))
          (alter (Reader.set_activeBanUntil (Some (d_2025_10_01 + 92))) "R2"
                 (readers (db b2_on_loan)))
          (loans (db b2_on_loan)) (newReleaseBorrowed (db b2_on_loan)))
    (alert b2_on_loan) (outbox b2_on_loan).

(** R2 holds the original of B2; R7, whom the store does not know, has
    subscribed to B2 and the console gateway is set. *)
Definition b2_on_loan_unknown_subscriber : World :=
  state_of ((subscribe "B2" "R7" ;; set_gateway (Some ConsoleEmailGateway)) b2_on_loan).

(** R1 and R2 were given one list object for their active loans: once R1 has
    borrowed C1, the id L1 is in the list of R2 as well. *)
Definition c1_on_loan_shared_list : World :=
  mkWorld
    (mkDb (books (db c1_on_loan)) (copies (db c1_on_loan))
          (alter (Reader.set_activeLoanIds ["L1"]) "R2" (readers (db c1_on_loan)))
          (loans (db c1_on_loan)) (newReleaseBorrowed (db c1_on_loan)))
    (alert c1_on_loan) (outbox c1_on_loan).

(** R2 then borrows C2. *)
Definition c2_on_loan_shared_list : World :=
  after [BorrowCopy "C2" "R2" d_2025_10_01] c1_on_loan_shared_list.

(** ** Further vocabulary: frames and store invariants *)

(** [preserves Rel m]: whatever the outcome of [m], the state it leaves is
    related by [Rel] to the state it started in. *)
Definition preserves (Rel : World → World → Prop) {A} (m : M A) : Prop :=
  ∀ w, Rel w (state_of (m w)).

(** What no operation of the service touches, whether it returns or raises:
    the notifier, the books, the ids and books of the copies, the ids and
    emails of the readers; the loan ids already in the store stay, in their
    order, and the messages already sent stay sent. *)
Definition op_frame (w w' : World) : Prop :=
  alert w' = alert w ∧
  books (db w') = books (db w) ∧
  (∀ k, (λ c, (Copy.id c, Copy.bookId c)) <$> copies (db w') !! k =
        (λ c, (Copy.id c, Copy.bookId c)) <$> copies (db w) !! k) ∧
  (∀ k, (λ r, (Reader.id r, Reader.email r)) <$> readers (db w') !! k =
        (λ r, (Reader.id r, Reader.email r)) <$> readers (db w) !! k) ∧
  (loans (db w)).*1 `prefix_of` (loans (db w')).*1 ∧
  outbox w `prefix_of` outbox w'.

(** Nothing is sent, and the notifier stays as it is, as long as no gateway is
    configured or nobody is subscribed. *)
Definition quiet (w w' : World) : Prop :=
  alert w' = alert w ∧
  (gateway (alert w) = None ∨ subs (alert w) = ∅ → outbox w' = outbox w).

(** The messages a successful return of book [b] adds, from [w] to [w']: none
    without a gateway; with one, a notice with the title of the book for each
    of its subscribers, to the email the store holds for that reader, the
    subscribers taken in some order ([order] lists each of them once). *)
Definition availability_notices (b : string) (w w' : World) : Prop :=
  match gateway (alert w) with
  | None => outbox w' = outbox w
  | Some _ =>
      ∃ B order emails,
        books (db w) !! b = Some B ∧
        NoDup order ∧
        (∀ rid, rid ∈ order ↔ rid ∈ default ∅ (subs (alert w) !! b)) ∧
        Forall2 (λ rid e, Reader.email <$> readers (db w) !! rid = Some e)
                order emails ∧
        outbox w' =
        (outbox w ++ map (λ e, mkEmail e ("Disponible: " +:+ Book.title B)
                                       "Ya puedes solicitarlo") emails)%list
  end.

(** What can become of a loan: it stays as it is, or, if it is open, it is
    closed with a return date, everything else in it unchanged. *)
Definition loan_kept (L L' : Loan.t) : Prop :=
  L' = L ∨ (Loan.returned L = None ∧ ∃ when, L' = Loan.set_returned (Some when) L).

(** Every loan of [l] is still in [l'], under its id, kept as above. *)
Definition history_kept (l l' : list (string * Loan.t)) : Prop :=
  ∀ k L, dict_get k l = Some L → ∃ L', dict_get k l' = Some L' ∧ loan_kept L L'.

(** The copies and the loans agree: a copy is IN_LIBRARY and no loan of it is
    open, or it is LOANED and exactly one loan of it is open. *)
Definition copy_loans_consistent (d : MemoryDb) : Prop :=
  ∀ cid c, copies d !! cid = Some c →
    (Copy.status c = CopyStatus.IN_LIBRARY ∧
     count_loans (open_loan_of_copy cid) (loans d) = 0%nat) ∨
    (Copy.status c = CopyStatus.LOANED ∧
     count_loans (open_loan_of_copy cid) (loans d) = 1%nat).

(** A store as the service keeps its copies and loans: loan ids L1, L2, ... in
    order, no copy under the empty id, and copies and loans in agreement. *)
Definition copies_and_loans_consistent (d : MemoryDb) : Prop :=
  generated_ids (loans d) ∧
  copies d !! "" = None ∧
  copy_loans_consistent d.

(** Two stores that differ at most in their readers. *)
Definition same_but_readers (d d' : MemoryDb) : Prop :=
  books d' = books d ∧ copies d' = copies d ∧ loans d' = loans d ∧
  newReleaseBorrowed d' = newReleaseBorrowed d.

(** [served w w']: a sequence of successful calls leads from [w] to [w'].
    Readers may have been given one list object for their active loans, to
    which a borrow appends in place: nothing is assumed of the readers a call
    leaves behind, which may differ in any way from the readers the embedding
    computes; the notifier may be set up anew between two calls. *)
Inductive served (w : World) : World → Prop :=
| served_refl : served w w
| served_call (op : Op) (v : option string) (w1 w2 w' : World) :
    run_op op w = Ok v w1 →
    same_but_readers (db w1) (db w2) →
    served w2 w' →
    served w w'.

(** [w'] is [w] but for the readers other than [rid], of whom nothing is
    said. *)
Definition same_but_other_readers (rid : string) (w w' : World) : Prop :=
  alert w' = alert w ∧ outbox w' = outbox w ∧
  same_but_readers (db w) (db w') ∧
  readers (db w') !! rid = readers (db w) !! rid.

(** The notification of book [b] can go through: no gateway is set, or the
    store holds the book and a reader for every subscriber of the book. *)
Definition notifiable (b : string) (w : World) : Prop :=
  gateway (alert w) = None ∨
  (is_Some (books (db w) !! b) ∧
   ∀ rid, rid ∈ default ∅ (subs (alert w) !! b) → is_Some (readers (db w) !! rid)).

(** ** Reasoning about the monad *)

Lemma bind_unfold {A B} (m : M A) (k : A → M B) (w : World) :
  (m ≫= k) w = match m w with Ok a w1 => k a w1 | Raise e w1 => Raise e w1 end.
Proof. reflexivity. Qed.

Lemma bind_Ok_inv {A B} (m : M A) (k : A → M B) w b w' :
  (m ≫= k) w = Ok b w' → ∃ a w1, m w = Ok a w1 ∧ k a w1 = Ok b w'.
Proof. rewrite bind_unfold. destruct (m w) as [a w1|e w1]; [eauto | discriminate]. Qed.

Lemma bind_Raise_inv {A B} (m : M A) (k : A → M B) w e w' :
  (m ≫= k) w = Raise e w' →
  m w = Raise e w' ∨ ∃ a w1, m w = Ok a w1 ∧ k a w1 = Raise e w'.
Proof. rewrite bind_unfold. destruct (m w) as [a w1|e1 w1]; [eauto | left; congruence]. Qed.

Lemma raises_no_fault_bind {A B} (m : M A) (k : A → M B) :
  raises_no_fault m → (∀ a, raises_no_fault (k a)) → raises_no_fault (m ≫= k).
Proof.
  intros Hm Hk w e w' H.
  apply bind_Raise_inv in H as [H | (a & w1 & _ & H)]; [exact (Hm _ _ _ H) | exact (Hk _ _ _ _ H)].
Qed.

Lemma raises_no_fault_total {A} (m : M A) :
  (∀ w, ∃ a w', m w = Ok a w') → raises_no_fault m.
Proof. intros H w e w' Hr. destruct (H w) as (a & w1 & Ha). congruence. Qed.

Lemma raises_no_fault_ret {A} (a : A) : raises_no_fault (mret a : M A).
Proof. apply raises_no_fault_total; intros w; by exists a, w. Qed.

Lemma raises_no_fault_modify_db f : raises_no_fault (modify_db f).
Proof. apply raises_no_fault_total; intros w; by eexists _, _. Qed.

Lemma raises_no_fault_add_days d n : raises_no_fault (add_days d n).
Proof.
  intros w e w' H f. unfold add_days in H.
  destruct (_ && _); [discriminate | unfold raise in H; congruence].
Qed.

Lemma raises_no_fault_lookup_loan k : raises_no_fault (lookup_loan k).
Proof.
  intros w e w' H f. unfold lookup_loan in H. rewrite bind_unfold in H. cbn in H.
  destruct (dict_get k _); [discriminate | unfold raise in H; congruence].
Qed.

Lemma raises_no_fault_lookup_reader k : raises_no_fault (lookup_reader k).
Proof.
  intros w e w' H f. unfold lookup_reader in H. rewrite bind_unfold in H. cbn in H.
  destruct (_ !! k); [discriminate | unfold raise in H; congruence].
Qed.

Lemma raises_no_fault_call_email k : raises_no_fault (call email_of_reader k).
Proof.
  intros w e w' H f. unfold call, email_of_reader in H.
  destruct (_ !! k); [discriminate | congruence].
Qed.

Lemma raises_no_fault_call_title k : raises_no_fault (call title_of_book k).
Proof.
  intros w e w' H f. unfold call, title_of_book in H.
  destruct (_ !! k); [discriminate | congruence].
Qed.

Lemma raises_no_fault_for_each {A} (l : list A) (f : A → M unit) :
  (∀ x, raises_no_fault (f x)) → raises_no_fault (for_each l f).
Proof.
  intros Hf. induction l as [|x l IH]; simpl.
  - apply raises_no_fault_ret.
  - apply raises_no_fault_bind; auto.
Qed.

Lemma raises_no_fault_notify bookId :
  raises_no_fault (notify_available bookId email_of_reader title_of_book).
Proof.
  unfold notify_available. intros w e w' H. rewrite bind_unfold in H. cbn in H.
  destruct (gateway (alert w)) as [g|]; [|discriminate].
  revert H. apply raises_no_fault_bind; [apply raises_no_fault_call_title|].
  intros title. apply raises_no_fault_for_each. intros rid.
  apply raises_no_fault_bind; [apply raises_no_fault_call_email|].
  intros email. apply raises_no_fault_total. intros w0. by eexists _, _.
Qed.

Lemma raises_no_fault_close_loan loanId rid when release :
  raises_no_fault release → raises_no_fault (close_loan loanId rid when release).
Proof.
  intros Hrel. unfold close_loan.
  apply raises_no_fault_bind; [apply raises_no_fault_modify_db|]. intros _.
  apply raises_no_fault_bind; [apply raises_no_fault_lookup_loan|]. intros L.
  apply raises_no_fault_bind.
  - destruct (0 <? Loan.late_days L); [|apply raises_no_fault_ret].
    apply raises_no_fault_bind; [apply raises_no_fault_add_days|].
    intros ban. apply raises_no_fault_modify_db.
  - intros _. apply raises_no_fault_bind; [exact Hrel|].
    intros _. apply raises_no_fault_modify_db.
Qed.

(** ** Faults are raised before anything is written *)

Ltac fault_or_block H :=
  repeat match type of H with
  | raise _ _ = Raise _ _ => unfold raise in H; congruence
  | (if ?b then _ else _) _ = Raise _ _ => destruct b eqn:?
  | match ?o with Some _ => _ | None => _ end _ = Raise _ _ => destruct o eqn:?
  end.

Lemma borrow_copy_fault copyId readerId today w f w' :
  borrow_copy copyId readerId today w = Raise (ValueError f) w' → w' = w.
Proof.
  unfold borrow_copy. rewrite bind_unfold. cbn. intros H.
  fault_or_block H. exfalso. revert H. intros H.
  eapply (raises_no_fault_bind (add_days today 30)); [apply raises_no_fault_add_days| |exact H|reflexivity].
  intros due. repeat (apply raises_no_fault_bind; [apply raises_no_fault_modify_db|]; intros _).
  apply raises_no_fault_ret.
Qed.

Lemma borrow_original_fault bookId readerId today w f w' :
  borrow_original_new_release bookId readerId today w = Raise (ValueError f) w' → w' = w.
Proof.
  unfold borrow_original_new_release. rewrite bind_unfold. cbn. intros H.
  fault_or_block H. exfalso.
  eapply (raises_no_fault_bind (add_days today 30)); [apply raises_no_fault_add_days| |exact H|reflexivity].
  intros due. repeat (apply raises_no_fault_bind; [apply raises_no_fault_modify_db|]; intros _).
  apply raises_no_fault_ret.
Qed.

Lemma return_copy_fault copyId when w f w' :
  return_copy copyId when w = Raise (ValueError f) w' → w' = w.
Proof.
  unfold return_copy. rewrite bind_unfold. cbn. intros H.
  fault_or_block H. exfalso.
  eapply raises_no_fault_bind; [apply raises_no_fault_lookup_loan| |exact H|reflexivity].
  intros L. apply raises_no_fault_bind; [apply raises_no_fault_lookup_reader|]. intros _.
  apply raises_no_fault_bind; [|intros _; apply raises_no_fault_notify].
  apply raises_no_fault_close_loan, raises_no_fault_modify_db.
Qed.

Lemma return_original_fault bookId readerId when w f w' :
  return_original_new_release bookId readerId when w = Raise (ValueError f) w' → w' = w.
Proof.
  unfold return_original_new_release. rewrite bind_unfold. cbn. intros H.
  fault_or_block H. exfalso.
  eapply raises_no_fault_bind; [apply raises_no_fault_lookup_loan| |exact H|reflexivity].
  intros L. apply raises_no_fault_bind; [apply raises_no_fault_lookup_reader|]. intros _.
  apply raises_no_fault_bind; [|intros _; apply raises_no_fault_notify].
  apply raises_no_fault_close_loan, raises_no_fault_modify_db.
Qed.

(** C1. Whenever a borrow or a return operation raises a named fault
    ([ValueError] with one of the ten fault names), the process state it leaves
    behind (the store with its books, copies, readers, loans and borrowed
    originals, and the notifier with it) is the state it was called in: every
    check comes before the first write. *)
Theorem no_mutation_before_fault (op : Op) (w w' : World) (f : Fault) :
  run_op op w = Raise (ValueError f) w' → w' = w.
Proof.
  destruct op; simpl; intros H; apply bind_Raise_inv in H as [H | (a & w1 & _ & H)];
    try discriminate H.
  - eapply borrow_copy_fault, H.
  - eapply borrow_original_fault, H.
  - eapply return_copy_fault, H.
  - eapply return_original_fault, H.
Qed.

Lemma no_mutation_before_fault_witness :
  state_of (run_op (ReturnCopy "C1" d_2025_10_01) seed) = seed.
Proof.
  apply (no_mutation_before_fault (ReturnCopy "C1" d_2025_10_01) seed _ COPY_NOT_LOANED).
  vm_compute. reflexivity.
Defined.

(** The state a failure carries is the state at the raise: an exception of the
    interpreter can come after the writes.  Returning C9 raises [KeyError]
    from the title lookup once the loan is closed and the copy is back. *)
Example return_copy_keyerror_after_writes :
  return_copy "C9" (d_2025_10_01 + 30) orphan_copy_world =
  Raise (KeyError "B9")
    (mkWorld
       (mkDb ∅ (<["C9" := Copy.mk "C9" "B9" CopyStatus.IN_LIBRARY]> ∅)
             (<["R1" := Reader.mk "R1" "alice@example.com" None []]> ∅)
             [("L1", Loan.mk "C9" "B9" "R1" d_2025_10_01 (d_2025_10_01 + 30)
                             (Some (d_2025_10_01 + 30)))] ∅)
       (mkAlert ∅ (Some ConsoleEmailGateway)) []).
Proof. vm_compute. reflexivity. Qed.

(** A due date past 9999-12-31 does not exist: the borrow raises
    [OverflowError], before any write. *)
Example borrow_copy_overflow :
  borrow_copy "C1" "R1" (MAXORDINAL - 29) seed = Raise OverflowError seed.
Proof. vm_compute. reflexivity. Qed.

(** ** Insertion-ordered dictionaries: lookups after updates *)

Section DictFacts.
Context {V : Type}.
Implicit Types (d : list (string * V)) (k : string) (v : V).

Lemma dict_get_alter f k k' d :
  dict_get k' (dict_alter f k d) =
  if String.eqb k k' then f <$> dict_get k' d else dict_get k' d.
Proof.
  induction d as [|[k0 v0] d IH]; simpl.
  - by destruct (String.eqb k k').
  - destruct (String.eqb_spec k k0) as [->|Hk0], (String.eqb_spec k' k0) as [->|Hk'];
      simpl; rewrite ?String.eqb_refl; try done.
    + destruct (String.eqb_spec k0 k') as [->|]; [done|].
      by apply String.eqb_neq in Hk' as ->.
    + by apply String.eqb_neq in Hk0 as ->.
    + apply String.eqb_neq in Hk' as ->. exact IH.
Qed.

Lemma dict_get_set k k' v d :
  dict_get k' (dict_set k v d) = if String.eqb k k' then Some v else dict_get k' d.
Proof.
  induction d as [|[k0 v0] d IH]; simpl.
  - rewrite (String.eqb_sym k' k). by destruct (String.eqb k k').
  - destruct (String.eqb_spec k k0) as [->|Hk0]; simpl.
    + rewrite (String.eqb_sym k' k0). by destruct (String.eqb k0 k').
    + destruct (String.eqb_spec k' k0) as [->|Hk']; [|exact IH].
      by apply String.eqb_neq in Hk0 as ->.
Qed.

Lemma dict_alter_keys f k d : (dict_alter f k d).*1 = d.*1.
Proof.
  induction d as [|[k0 v0] d IH]; csimpl; [done|].
  destruct (String.eqb k k0); csimpl; by rewrite ?IH.
Qed.

Lemma dict_alter_length f k d : length (dict_alter f k d) = length d.
Proof. by rewrite <-(length_fmap fst), dict_alter_keys, length_fmap. Qed.

Lemma dict_get_None k d : dict_get k d = None ↔ k ∉ d.*1.
Proof.
  induction d as [|[k0 v0] d IH]; csimpl.
  - split; [intros _; apply not_elem_of_nil | done].
  - rewrite not_elem_of_cons. destruct (String.eqb_spec k k0) as [->|Hk0].
    + split; [discriminate | intros []; congruence].
    + rewrite IH. tauto.
Qed.

Lemma dict_find_Some p k d :
  dict_find p d = Some k → is_Some (dict_get k d).
Proof.
  induction d as [|[k0 v0] d IH]; simpl; [discriminate|].
  destruct (p v0).
  - intros [= ->]. by rewrite String.eqb_refl.
  - intros H. destruct (String.eqb k k0); eauto.
Qed.

(** In a dictionary (keys are distinct) the key the loop stops at is the key
    of an entry that satisfies the test. *)
Lemma dict_find_get p k d :
  NoDup d.*1 → dict_find p d = Some k → ∃ v, dict_get k d = Some v ∧ p v = true.
Proof.
  induction d as [|[k0 v0] d IH]; csimpl; [discriminate|].
  rewrite NoDup_cons. intros [Hk0 Hnd]. destruct (p v0) eqn:Hp.
  - intros [= ->]. rewrite String.eqb_refl. eauto.
  - intros H. destruct (String.eqb_spec k k0) as [->|]; [|eauto].
    destruct (dict_find_Some _ _ _ H) as [v Hv].
    apply dict_get_None in Hk0. congruence.
Qed.

Lemma dict_set_keys_NoDup k v d : NoDup d.*1 → NoDup (dict_set k v d).*1.
Proof.
  induction d as [|[k0 v0] d IH]; csimpl.
  - intros _. apply NoDup_singleton.
  - rewrite NoDup_cons. intros [Hk0 Hnd].
    destruct (String.eqb_spec k k0) as [->|Hne]; csimpl.
    + by apply NoDup_cons.
    + apply NoDup_cons. split; [|auto].
      apply dict_get_None. rewrite dict_get_set.
      apply String.eqb_neq in Hne as ->. by apply dict_get_None.
Qed.
End DictFacts.

(** ** What the notifier does *)

Section Notifier.
Variables (get_email_by_reader get_book_title : Callback).
Variable g : NotificationGateway.

Let send_to (title : string) : string → M unit := λ rid,
  email ← call get_email_by_reader rid;
  send_email g email ("Disponible: " +:+ title) "Ya puedes solicitarlo".

Lemma send_loop_frame title l w :
  db (state_of (for_each l (send_to title) w)) = db w ∧
  alert (state_of (for_each l (send_to title) w)) = alert w.
Proof.
  revert w. induction l as [|rid l IH]; intros w; simpl; [done|].
  rewrite bind_unfold. unfold send_to at 1 3. rewrite bind_unfold. unfold call.
  destruct (get_email_by_reader rid (db w)) as [e|email]; simpl; [done|].
  destruct (IH (mkWorld (db w) (alert w) (outbox w ++ [mkEmail email ("Disponible: " +:+ title)
                                                             "Ya puedes solicitarlo"]))) as [-> ->].
  done.
Qed.

Lemma send_loop_Ok title (email_of : string → string) l w :
  (∀ rid, rid ∈ l → get_email_by_reader rid (db w) = inr (email_of rid)) →
  for_each l (send_to title) w =
  Ok tt (mkWorld (db w) (alert w) (outbox w ++ map (λ rid, notice title (email_of rid)) l)).
Proof.
  revert w. induction l as [|rid l IH]; intros w Hl; simpl.
  - rewrite app_nil_r. by destruct w.
  - rewrite bind_unfold. unfold send_to at 1. rewrite bind_unfold. unfold call.
    rewrite (Hl rid) by apply list_elem_of_here. simpl.
    rewrite IH; simpl.
    + by rewrite <-app_assoc.
    + intros rid' Hin. apply Hl. by apply list_elem_of_further.
Qed.

Lemma send_loop_Ok_inv title l w w' :
  for_each l (send_to title) w = Ok tt w' →
  ∃ emails, Forall2 (λ rid email, get_email_by_reader rid (db w) = inr email) l emails ∧
    w' = mkWorld (db w) (alert w) (outbox w ++ map (notice title) emails).
Proof.
  revert w. induction l as [|rid l IH]; intros w; simpl.
  - intros [= <-]. exists []. split; [constructor|]. simpl. rewrite app_nil_r. by destruct w.
  - rewrite bind_unfold. unfold send_to at 1. rewrite bind_unfold. unfold call.
    destruct (get_email_by_reader rid (db w)) as [e|email] eqn:He; simpl; [discriminate|].
    intros H. apply IH in H as (emails & Hall & ->). simpl in *.
    exists (email :: emails). split; [by constructor|].
    simpl. by rewrite <-app_assoc.
Qed.

Lemma notify_available_gateway bookId w :
  gateway (alert w) = Some g →
  notify_available bookId get_email_by_reader get_book_title w =
  (title ← call get_book_title bookId;
   for_each (elements (default ∅ (subs (alert w) !! bookId))) (send_to title)) w.
Proof. unfold notify_available. rewrite bind_unfold. cbn. by intros ->. Qed.
End Notifier.

Lemma notify_available_frame bookId ce ct w :
  db (state_of (notify_available bookId ce ct w)) = db w ∧
  alert (state_of (notify_available bookId ce ct w)) = alert w.
Proof.
  destruct (gateway (alert w)) as [g|] eqn:Hg.
  - rewrite (notify_available_gateway _ _ g) by done.
    rewrite bind_unfold. unfold call. destruct (ct bookId (db w)); simpl; [done|].
    apply send_loop_frame.
  - unfold notify_available. rewrite bind_unfold. cbn. by rewrite Hg.
Qed.

Lemma notify_available_Ok_frame bookId ce ct w w' :
  notify_available bookId ce ct w = Ok tt w' → db w' = db w ∧ alert w' = alert w.
Proof. intros H. generalize (notify_available_frame bookId ce ct w). by rewrite H. Qed.

(** ** What a successful call does *)

Lemma lookup_loan_Ok k w L w1 :
  lookup_loan k w = Ok L w1 → w1 = w ∧ dict_get k (loans (db w)) = Some L.
Proof.
  unfold lookup_loan. rewrite bind_unfold. cbn.
  destruct (dict_get k _); [|discriminate]. by intros [= -> ->].
Qed.

Lemma lookup_reader_Ok k w R w1 :
  lookup_reader k w = Ok R w1 → w1 = w ∧ readers (db w) !! k = Some R.
Proof.
  unfold lookup_reader. rewrite bind_unfold. cbn.
  destruct (_ !! k); [|discriminate]. by intros [= -> ->].
Qed.

Lemma add_days_Ok d n w r w1 :
  add_days d n w = Ok r w1 → w1 = w ∧ r = d + n ∧ MINORDINAL ≤ d + n ≤ MAXORDINAL.
Proof.
  unfold add_days. destruct (_ && _) eqn:Hrange; [|discriminate].
  intros [= <- <-]. apply andb_prop in Hrange as [?%Z.leb_le ?%Z.leb_le]. done.
Qed.

Lemma add_days_in_range d n w :
  MINORDINAL ≤ d + n ≤ MAXORDINAL → add_days d n w = Ok (d + n) w.
Proof.
  intros H. unfold add_days.
  destruct (Z.leb_spec MINORDINAL (d + n)), (Z.leb_spec (d + n) MAXORDINAL); simpl;
    first [done | lia].
Qed.

Lemma close_loan_Ok loanId rid when gc gn w w' L R :
  dict_get loanId (loans (db w)) = Some L →
  readers (db w) !! rid = Some R →
  close_loan loanId rid when
    (modify_db (λ d, mkDb (books d) (gc (copies d)) (readers d) (loans d)
                          (gn (newReleaseBorrowed d)))) w = Ok tt w' →
  w' = mkWorld
         (mkDb (books (db w)) (gc (copies (db w)))
               (<[rid := closed_reader loanId (Loan.due L) when R]> (readers (db w)))
               (dict_alter (Loan.set_returned (Some when)) loanId (loans (db w)))
               (gn (newReleaseBorrowed (db w))))
         (alert w) (outbox w).
Proof.
  intros HL HR. unfold close_loan. rewrite bind_unfold. cbn.
  unfold lookup_loan. rewrite !bind_unfold. cbn.
  rewrite dict_get_alter, String.eqb_refl, HL. cbn.
  unfold Loan.late_days, closed_reader. cbn.
  destruct (Z.ltb_spec (Loan.due L) when) as [Hlate|Hlate].
  - destruct (Z.ltb_spec 0 (when - Loan.due L)); [|lia].
    do 2 rewrite bind_unfold.
    destruct (add_days when (2 * (when - Loan.due L)) _) as [ban w1|] eqn:Hadd;
      [|discriminate].
    apply add_days_Ok in Hadd as (-> & -> & _). cbn.
    intros [= <-]. do 2 f_equal.
    rewrite (alter_alt_Some _ _ _ _ HR), (alter_alt_Some _ _ _ _ (lookup_insert_eq _ _ _)).
    by rewrite insert_insert_eq.
  - cbn. intros [= <-]. do 2 f_equal. by rewrite (alter_alt_Some _ _ _ _ HR).
Qed.

Lemma return_copy_Ok copyId when w w' :
  return_copy copyId when w = Ok tt w' →
  ∃ c loanId L R,
    copies (db w) !! copyId = Some c ∧
    (Copy.status c = CopyStatus.LOANED ∨ Copy.status c = CopyStatus.LATE) ∧
    dict_find (open_loan_of_copy copyId) (loans (db w)) = Some loanId ∧
    loanId ≠ "" ∧
    dict_get loanId (loans (db w)) = Some L ∧
    readers (db w) !! Loan.readerId L = Some R ∧
    db w' = mkDb (books (db w))
                 (<[copyId := Copy.set_status CopyStatus.IN_LIBRARY c]> (copies (db w)))
                 (<[Loan.readerId L := closed_reader loanId (Loan.due L) when R]>
                    (readers (db w)))
                 (dict_alter (Loan.set_returned (Some when)) loanId (loans (db w)))
                 (newReleaseBorrowed (db w)) ∧
    alert w' = alert w.
Proof.
  unfold return_copy. rewrite bind_unfold. cbn.
  destruct (copies (db w) !! copyId) as [c|] eqn:Hc; [|discriminate].
  destruct (negb _) eqn:Hst; [discriminate|].
  destruct (dict_find _ _) as [loanId|] eqn:Hfind; [|discriminate].
  destruct (String.eqb_spec loanId "") as [|Hne]; [discriminate|].
  intros H.
  apply bind_Ok_inv in H as (L & w1 & [-> HL]%lookup_loan_Ok & H).
  apply bind_Ok_inv in H as (R & w2 & [-> HR]%lookup_reader_Ok & H).
  apply bind_Ok_inv in H as ([] & w3 & Hclose & H).
  apply (close_loan_Ok _ _ _ (alter (Copy.set_status CopyStatus.IN_LIBRARY) copyId) (λ s, s)
           _ _ L R HL HR) in Hclose as ->.
  apply notify_available_Ok_frame in H as [Hdb Hal]. cbn in Hdb, Hal.
  exists c, loanId, L, R. repeat split; try done.
  - apply negb_false_iff, orb_prop in Hst as [?%String.eqb_eq | ?%String.eqb_eq]; auto.
  - rewrite Hdb. by rewrite (alter_alt_Some _ _ _ _ Hc).
Qed.

Lemma return_original_Ok bookId readerId when w w' :
  return_original_new_release bookId readerId when w = Ok tt w' →
  ∃ loanId L R,
    is_Some (books (db w) !! bookId) ∧
    bookId ∈ newReleaseBorrowed (db w) ∧
    dict_find (open_original_loan bookId readerId) (loans (db w)) = Some loanId ∧
    loanId ≠ "" ∧
    dict_get loanId (loans (db w)) = Some L ∧
    readers (db w) !! readerId = Some R ∧
    db w' = mkDb (books (db w)) (copies (db w))
                 (<[readerId := closed_reader loanId (Loan.due L) when R]> (readers (db w)))
                 (dict_alter (Loan.set_returned (Some when)) loanId (loans (db w)))
                 (newReleaseBorrowed (db w) ∖ {[bookId]}) ∧
    alert w' = alert w.
Proof.
  unfold return_original_new_release. rewrite bind_unfold. cbn.
  case_bool_decide as Hb; [discriminate|].
  case_bool_decide as Hr; [discriminate|].
  case_bool_decide as Hn; [discriminate|].
  destruct (dict_find _ _) as [loanId|] eqn:Hfind; [|discriminate].
  destruct (String.eqb_spec loanId "") as [|Hne]; [discriminate|].
  intros H.
  apply bind_Ok_inv in H as (L & w1 & [-> HL]%lookup_loan_Ok & H).
  apply bind_Ok_inv in H as (R & w2 & [-> HR]%lookup_reader_Ok & H).
  apply bind_Ok_inv in H as ([] & w3 & Hclose & H).
  apply (close_loan_Ok _ _ _ (λ c, c) (λ s, s ∖ {[bookId]}) _ _ L R HL HR) in Hclose as ->.
  apply notify_available_Ok_frame in H as [Hdb Hal]. cbn in Hdb, Hal.
  exists loanId, L, R. repeat split; try done.
  by apply elem_of_dom.
Qed.

Lemma borrow_copy_Ok copyId readerId today w loanId w' :
  borrow_copy copyId readerId today w = Ok loanId w' →
  ∃ c r,
    copies (db w) !! copyId = Some c ∧
    readers (db w) !! readerId = Some r ∧
    Reader.can_borrow r today = true ∧
    Copy.status c = CopyStatus.IN_LIBRARY ∧
    MINORDINAL ≤ today + 30 ≤ MAXORDINAL ∧
    loanId = next_loan_id (db w) ∧
    w' = mkWorld
           (mkDb (books (db w))
                 (<[copyId := Copy.set_status CopyStatus.LOANED c]> (copies (db w)))
                 (<[readerId := Reader.set_activeLoanIds
                                  (Reader.activeLoanIds r ++ [loanId]) r]> (readers (db w)))
                 (dict_set loanId
                    (Loan.mk copyId (Copy.bookId c) readerId today (today + 30) None)
                    (loans (db w)))
                 (newReleaseBorrowed (db w)))
           (alert w) (outbox w).
Proof.
  unfold borrow_copy. rewrite bind_unfold. cbn.
  destruct (copies (db w) !! copyId) as [c|] eqn:Hc; [|discriminate].
  destruct (readers (db w) !! readerId) as [r|] eqn:Hr; [|discriminate].
  destruct (Reader.can_borrow r today) eqn:Hcan; [|discriminate]. cbn.
  destruct (String.eqb_spec (Copy.status c) CopyStatus.IN_LIBRARY) as [Hst|]; [|discriminate].
  cbn. intros H.
  apply bind_Ok_inv in H as (due & w1 & (-> & -> & Hrange)%add_days_Ok & H).
  cbn in H. injection H as <- <-.
  exists c, r. repeat split; try done; try apply Hrange.
  by rewrite (alter_alt_Some _ _ _ _ Hc), (alter_alt_Some _ _ _ _ Hr).
Qed.

Lemma borrow_original_Ok bookId readerId today w loanId w' :
  borrow_original_new_release bookId readerId today w = Ok loanId w' →
  ∃ b r,
    books (db w) !! bookId = Some b ∧
    readers (db w) !! readerId = Some r ∧
    Book.isNewRelease b = true ∧
    Reader.can_borrow r today = true ∧
    (bookId ∉ newReleaseBorrowed (db w)) ∧
    MINORDINAL ≤ today + 30 ≤ MAXORDINAL ∧
    loanId = next_loan_id (db w) ∧
    w' = mkWorld
           (mkDb (books (db w)) (copies (db w))
                 (<[readerId := Reader.set_activeLoanIds
                                  (Reader.activeLoanIds r ++ [loanId]) r]> (readers (db w)))
                 (dict_set loanId (Loan.mk "" bookId readerId today (today + 30) None)
                    (loans (db w)))
                 (newReleaseBorrowed (db w) ∪ {[bookId]}))
           (alert w) (outbox w).
Proof.
  unfold borrow_original_new_release. rewrite bind_unfold. cbn.
  destruct (books (db w) !! bookId) as [b|] eqn:Hb; [|discriminate].
  destruct (readers (db w) !! readerId) as [r|] eqn:Hr; [|discriminate].
  destruct (Book.isNewRelease b) eqn:Hnew; [|discriminate]. cbn.
  destruct (Reader.can_borrow r today) eqn:Hcan; [|discriminate]. cbn.
  case_bool_decide as Hin; [discriminate|].
  intros H.
  apply bind_Ok_inv in H as (due & w1 & (-> & -> & Hrange)%add_days_Ok & H).
  cbn in H. injection H as <- <-.
  exists b, r. repeat split; try done; try apply Hrange.
  by rewrite (alter_alt_Some _ _ _ _ Hr).
Qed.

(** ** Eligibility *)

(** C2. [Reader.can_borrow(asOf)] is true exactly when the reader is not
    banned (no [activeBanUntil], or [asOf] strictly after it: the ban includes
    its last day) and holds fewer than 3 active loans.  In particular a reader
    whose ban ends on [asOf] or later cannot borrow, however few loans they
    hold. *)
Theorem can_borrow_iff (r : Reader.t) (asOf : date) :
  (Reader.can_borrow r asOf = true ↔
     (Reader.activeBanUntil r = None ∨
      ∃ b, Reader.activeBanUntil r = Some b ∧ b < asOf) ∧
     (length (Reader.activeLoanIds r) < 3)%nat) ∧
  (∀ b, Reader.activeBanUntil r = Some b → asOf ≤ b →
        Reader.can_borrow r asOf = false).
Proof.
  unfold Reader.can_borrow. split.
  - rewrite andb_true_iff, negb_true_iff, Nat.ltb_lt.
    destruct (Reader.activeBanUntil r) as [b|].
    + rewrite Z.leb_gt. split.
      * intros [Hb Hn]. split; [right; eauto | done].
      * intros [[|(b' & [= <-] & Hb)] Hn]; [done | by split].
    + split; [intros [_ Hn]; split; [by left | done] | by intros [_ Hn]].
  - intros b -> Hb. by apply Z.leb_le in Hb as ->.
Qed.

Lemma can_borrow_iff_witness :
  Reader.can_borrow (Reader.mk "R1" "alice@example.com" (Some d_2025_10_01) [])
                    d_2025_10_01 = false.
Proof.
  apply (proj2 (can_borrow_iff (Reader.mk "R1" "alice@example.com" (Some d_2025_10_01) [])
                               d_2025_10_01) d_2025_10_01); [reflexivity | unfold d_2025_10_01; lia].
Defined.

(** ** Late days and the ban *)

Lemma late_days_closed (L : Loan.t) (when : date) :
  Loan.late_days (Loan.set_returned (Some when) L) =
  if Loan.due L <? when then when - Loan.due L else 0.
Proof. reflexivity. Qed.

Lemma closed_reader_ban_rule loanId when L R :
  ban_rule when L R (closed_reader loanId (Loan.due L) when R).
Proof.
  unfold ban_rule. rewrite late_days_closed. unfold closed_reader. cbn.
  destruct (Z.ltb_spec (Loan.due L) when); repeat split; intros; try lia; try done.
  all: do 2 f_equal; lia.
Qed.

(** The loan a successful [return_copy] closes, with its borrower before and
    after the call. *)
Lemma return_copy_closes copyId when w w' :
  return_copy copyId when w = Ok tt w' →
  ∃ loanId L R,
    dict_find (open_loan_of_copy copyId) (loans (db w)) = Some loanId ∧
    dict_get loanId (loans (db w)) = Some L ∧
    dict_get loanId (loans (db w')) = Some (Loan.set_returned (Some when) L) ∧
    readers (db w) !! Loan.readerId L = Some R ∧
    readers (db w') !! Loan.readerId L = Some (closed_reader loanId (Loan.due L) when R).
Proof.
  intros (c & loanId & L & R & Hc & _ & Hfind & _ & HL & HR & -> & _)%return_copy_Ok.
  exists loanId, L, R. cbn. repeat split; try done.
  - by rewrite dict_get_alter, String.eqb_refl, HL.
  - apply lookup_insert_eq.
Qed.

Lemma return_original_closes bookId readerId when w w' :
  return_original_new_release bookId readerId when w = Ok tt w' →
  ∃ loanId L R,
    dict_find (open_original_loan bookId readerId) (loans (db w)) = Some loanId ∧
    dict_get loanId (loans (db w)) = Some L ∧
    dict_get loanId (loans (db w')) = Some (Loan.set_returned (Some when) L) ∧
    readers (db w) !! readerId = Some R ∧
    readers (db w') !! readerId = Some (closed_reader loanId (Loan.due L) when R).
Proof.
  intros (loanId & L & R & _ & _ & Hfind & _ & HL & HR & -> & _)%return_original_Ok.
  exists loanId, L, R. cbn. repeat split; try done.
  - by rewrite dict_get_alter, String.eqb_refl, HL.
  - apply lookup_insert_eq.
Qed.

(** C3. [Loan.late_days()] is 0 for a loan that is not returned or was returned
    on or before its due date, and the whole-day difference [returned - due]
    otherwise.  A successful return therefore applies the ban rule to the
    borrower of the loan it closes: [lateDays > 0] sets [activeBanUntil] to the
    return date plus [2 * lateDays] days (1 day late: plus 2; 5 days late:
    plus 10), and a return on or before the due date sets no ban. *)
Theorem late_days_and_ban :
  (∀ L : Loan.t,
     Loan.late_days L =
     match Loan.returned L with
     | None => 0
     | Some r => if decide (r ≤ Loan.due L) then 0 else r - Loan.due L
     end) ∧
  (∀ copyId when w w',
     return_copy copyId when w = Ok tt w' →
     ∃ loanId L R R',
       dict_find (open_loan_of_copy copyId) (loans (db w)) = Some loanId ∧
       dict_get loanId (loans (db w)) = Some L ∧
       dict_get loanId (loans (db w')) = Some (Loan.set_returned (Some when) L) ∧
       readers (db w) !! Loan.readerId L = Some R ∧
       readers (db w') !! Loan.readerId L = Some R' ∧
       ban_rule when L R R') ∧
  (∀ bookId readerId when w w',
     return_original_new_release bookId readerId when w = Ok tt w' →
     ∃ loanId L R R',
       dict_find (open_original_loan bookId readerId) (loans (db w)) = Some loanId ∧
       dict_get loanId (loans (db w)) = Some L ∧
       dict_get loanId (loans (db w')) = Some (Loan.set_returned (Some when) L) ∧
       readers (db w) !! readerId = Some R ∧
       readers (db w') !! readerId = Some R' ∧
       ban_rule when L R R').
Proof.
  split; [|split].
  - intros L. unfold Loan.late_days. destruct (Loan.returned L) as [r|]; [|done].
    destruct (Z.ltb_spec (Loan.due L) r); case_decide; first [done | lia].
  - intros copyId when w w' (loanId & L & R & ? & ? & ? & ? & ?)%return_copy_closes.
    exists loanId, L, R, (closed_reader loanId (Loan.due L) when R).
    do 5 (split; [done|]). apply closed_reader_ban_rule.
  - intros bookId readerId when w w'
      (loanId & L & R & ? & ? & ? & ? & ?)%return_original_closes.
    exists loanId, L, R, (closed_reader loanId (Loan.due L) when R).
    do 5 (split; [done|]). apply closed_reader_ban_rule.
Qed.

Lemma late_days_and_ban_witness :
  ∃ loanId L R R',
    dict_find (open_loan_of_copy "C1") (loans (db c1_on_loan)) = Some loanId ∧
    dict_get loanId (loans (db c1_on_loan)) = Some L ∧
    dict_get loanId (loans (db (after [ReturnCopy "C1" (d_2025_10_01 + 31)] c1_on_loan))) =
      Some (Loan.set_returned (Some (d_2025_10_01 + 31)) L) ∧
    readers (db c1_on_loan) !! Loan.readerId L = Some R ∧
    readers (db (after [ReturnCopy "C1" (d_2025_10_01 + 31)] c1_on_loan))
      !! Loan.readerId L = Some R' ∧
    ban_rule (d_2025_10_01 + 31) L R R'.
Proof.
  apply (proj1 (proj2 late_days_and_ban) "C1" (d_2025_10_01 + 31) c1_on_loan).
  vm_compute. reflexivity.
Defined.

(** The scenarios of the test suite: a return on the due date sets no ban, a
    return one day late bans for 2 days, five days late for 10 days. *)
Example test_devolver_dia_30_sin_sancion :
  Reader.activeBanUntil <$>
    readers (db (after [ReturnCopy "C1" (d_2025_10_01 + 30)] c1_on_loan)) !! "R1" =
  Some None.
Proof. vm_compute. reflexivity. Qed.

Example test_retraso_1dia_ban_2 :
  Reader.activeBanUntil <$>
    readers (db (after [ReturnCopy "C1" (d_2025_10_01 + 31)] c1_on_loan)) !! "R1" =
  Some (Some (d_2025_10_01 + 31 + 2)).
Proof. vm_compute. reflexivity. Qed.

Example test_retraso_5dias_ban_10 :
  Reader.activeBanUntil <$>
    readers (db (after [ReturnCopy "C1" (d_2025_10_01 + 35)] c1_on_loan)) !! "R1" =
  Some (Some (d_2025_10_01 + 35 + 10)).
Proof. vm_compute. reflexivity. Qed.

(** ** The checks of [borrow_copy], in order *)

Lemma fault_message_inj : Inj (=) (=) fault_message.
Proof. intros [] []; simpl; intros H; first [reflexivity | discriminate H]. Qed.

(** C4. [borrow_copy(copyId, readerId, asOf)] checks, in this order: the copy
    exists, else COPY_NOT_FOUND; the reader exists, else READER_NOT_FOUND; the
    reader can borrow on [asOf], else BORROW_FORBIDDEN; the copy is IN_LIBRARY,
    else COPY_NOT_AVAILABLE.  The four faults carry different names, and for an
    existing copy that is not IN_LIBRARY and an existing reader who cannot
    borrow the fault is BORROW_FORBIDDEN. *)
Theorem borrow_copy_checks_in_order (copyId readerId : string) (asOf : date) (w : World) :
  (copies (db w) !! copyId = None →
   borrow_copy copyId readerId asOf w = Raise (ValueError COPY_NOT_FOUND) w) ∧
  (∀ c, copies (db w) !! copyId = Some c →
        readers (db w) !! readerId = None →
        borrow_copy copyId readerId asOf w = Raise (ValueError READER_NOT_FOUND) w) ∧
  (∀ c r, copies (db w) !! copyId = Some c →
          readers (db w) !! readerId = Some r →
          Reader.can_borrow r asOf = false →
          borrow_copy copyId readerId asOf w = Raise (ValueError BORROW_FORBIDDEN) w) ∧
  (∀ c r, copies (db w) !! copyId = Some c →
          readers (db w) !! readerId = Some r →
          Reader.can_borrow r asOf = true →
          Copy.status c ≠ CopyStatus.IN_LIBRARY →
          borrow_copy copyId readerId asOf w = Raise (ValueError COPY_NOT_AVAILABLE) w) ∧
  (∀ c r, copies (db w) !! copyId = Some c →
          readers (db w) !! readerId = Some r →
          Reader.can_borrow r asOf = true →
          Copy.status c = CopyStatus.IN_LIBRARY →
          MINORDINAL ≤ asOf + 30 ≤ MAXORDINAL →
          ∃ w', borrow_copy copyId readerId asOf w = Ok (next_loan_id (db w)) w') ∧
  NoDup (fault_message <$>
           [COPY_NOT_FOUND; READER_NOT_FOUND; BORROW_FORBIDDEN; COPY_NOT_AVAILABLE]).
Proof.
  unfold borrow_copy. rewrite bind_unfold. cbn. split_and!.
  - by intros ->.
  - by intros c -> ->.
  - by intros c r -> -> ->.
  - intros c r -> -> -> Hst. cbn. by apply String.eqb_neq in Hst as ->.
  - intros c r -> -> -> Hst Hrange. cbn. apply String.eqb_eq in Hst as ->. cbn.
    rewrite bind_unfold, add_days_in_range by done. cbn. eauto.
  - apply NoDup_ListNoDup. repeat constructor; simpl; intuition discriminate.
Qed.

Lemma borrow_copy_checks_in_order_witness :
  borrow_copy "C1" "R1" (d_2025_10_01 + 33)
    (after [ReturnCopy "C2" (d_2025_10_01 + 31); BorrowCopy "C1" "R2" (d_2025_10_01 + 32)]
           (after [BorrowCopy "C2" "R1" d_2025_10_01] seed)) =
  Raise (ValueError BORROW_FORBIDDEN)
    (after [ReturnCopy "C2" (d_2025_10_01 + 31); BorrowCopy "C1" "R2" (d_2025_10_01 + 32)]
           (after [BorrowCopy "C2" "R1" d_2025_10_01] seed)).
Proof.
  apply (proj1 (proj2 (proj2 (borrow_copy_checks_in_order "C1" "R1" (d_2025_10_01 + 33) _)))
           (Copy.mk "C1" "B1" CopyStatus.LOANED)
           (Reader.mk "R1" "alice@example.com" (Some (d_2025_10_01 + 33)) []));
    vm_compute; reflexivity.
Defined.

(** ** What an on-time return leaves alone *)

(** C10. A return on or before the due date of the loan it closes leaves the
    borrower's [activeBanUntil] as it was, ban or no ban.  The store after the
    call is the store before it with the loan marked returned, the borrower's
    [activeLoanIds] filtered, and the copy IN_LIBRARY ([return_copy]) or the
    book out of the borrowed originals ([return_original_new_release]);
    nothing else in it changes, and neither does the notifier. *)
Theorem on_time_return_frame :
  (∀ copyId when w w',
     return_copy copyId when w = Ok tt w' →
     ∃ c loanId L R,
       copies (db w) !! copyId = Some c ∧
       dict_find (open_loan_of_copy copyId) (loans (db w)) = Some loanId ∧
       dict_get loanId (loans (db w)) = Some L ∧
       readers (db w) !! Loan.readerId L = Some R ∧
       (when ≤ Loan.due L →
        Reader.activeBanUntil <$> readers (db w') !! Loan.readerId L =
          Some (Reader.activeBanUntil R) ∧
        db w' =
          mkDb (books (db w))
               (<[copyId := Copy.mk (Copy.id c) (Copy.bookId c) CopyStatus.IN_LIBRARY]>
                  (copies (db w)))
               (<[Loan.readerId L :=
                    Reader.mk (Reader.id R) (Reader.email R) (Reader.activeBanUntil R)
                      (filter (λ x, x ≠ loanId) (Reader.activeLoanIds R))]>
                  (readers (db w)))
               (dict_alter (Loan.set_returned (Some when)) loanId (loans (db w)))
               (newReleaseBorrowed (db w)) ∧
        alert w' = alert w)) ∧
  (∀ bookId readerId when w w',
     return_original_new_release bookId readerId when w = Ok tt w' →
     ∃ loanId L R,
       dict_find (open_original_loan bookId readerId) (loans (db w)) = Some loanId ∧
       dict_get loanId (loans (db w)) = Some L ∧
       readers (db w) !! readerId = Some R ∧
       (when ≤ Loan.due L →
        Reader.activeBanUntil <$> readers (db w') !! readerId =
          Some (Reader.activeBanUntil R) ∧
        db w' =
          mkDb (books (db w)) (copies (db w))
               (<[readerId :=
                    Reader.mk (Reader.id R) (Reader.email R) (Reader.activeBanUntil R)
                      (filter (λ x, x ≠ loanId) (Reader.activeLoanIds R))]>
                  (readers (db w)))
               (dict_alter (Loan.set_returned (Some when)) loanId (loans (db w)))
               (newReleaseBorrowed (db w) ∖ {[bookId]}) ∧
        alert w' = alert w)).
Proof.
  split.
  - intros copyId when w w'
      (c & loanId & L & R & Hc & _ & Hfind & _ & HL & HR & Hdb & Hal)%return_copy_Ok.
    exists c, loanId, L, R. do 4 (split; [done|]). intros Hontime.
    assert (closed_reader loanId (Loan.due L) when R =
            Reader.mk (Reader.id R) (Reader.email R) (Reader.activeBanUntil R)
              (filter (λ x, x ≠ loanId) (Reader.activeLoanIds R))) as Hcl.
    { unfold closed_reader. by destruct (Z.ltb_spec (Loan.due L) when); [lia|]. }
    rewrite Hcl in Hdb. rewrite Hdb. cbn. by rewrite lookup_insert_eq.
  - intros bookId readerId when w w'
      (loanId & L & R & _ & _ & Hfind & _ & HL & HR & Hdb & Hal)%return_original_Ok.
    exists loanId, L, R. do 3 (split; [done|]). intros Hontime.
    assert (closed_reader loanId (Loan.due L) when R =
            Reader.mk (Reader.id R) (Reader.email R) (Reader.activeBanUntil R)
              (filter (λ x, x ≠ loanId) (Reader.activeLoanIds R))) as Hcl.
    { unfold closed_reader. by destruct (Z.ltb_spec (Loan.due L) when); [lia|]. }
    rewrite Hcl in Hdb. rewrite Hdb. cbn. by rewrite lookup_insert_eq.
Qed.

Lemma on_time_return_frame_witness :
  ∃ c loanId L R,
    copies (db c1_on_loan_r1_banned) !! "C1" = Some c ∧
    dict_find (open_loan_of_copy "C1") (loans (db c1_on_loan_r1_banned)) = Some loanId ∧
    dict_get loanId (loans (db c1_on_loan_r1_banned)) = Some L ∧
    readers (db c1_on_loan_r1_banned) !! Loan.readerId L = Some R ∧
    (d_2025_10_01 + 30 ≤ Loan.due L →
     Reader.activeBanUntil <$>
       readers (db (after [ReturnCopy "C1" (d_2025_10_01 + 30)] c1_on_loan_r1_banned))
         !! Loan.readerId L = Some (Reader.activeBanUntil R) ∧
     db (after [ReturnCopy "C1" (d_2025_10_01 + 30)] c1_on_loan_r1_banned) =
       mkDb (books (db c1_on_loan_r1_banned))
            (<["C1" := Copy.mk (Copy.id c) (Copy.bookId c) CopyStatus.IN_LIBRARY]>
               (copies (db c1_on_loan_r1_banned)))
            (<[Loan.readerId L :=
                 Reader.mk (Reader.id R) (Reader.email R) (Reader.activeBanUntil R)
                   (filter (λ x, x ≠ loanId) (Reader.activeLoanIds R))]>
               (readers (db c1_on_loan_r1_banned)))
            (dict_alter (Loan.set_returned (Some (d_2025_10_01 + 30))) loanId
               (loans (db c1_on_loan_r1_banned)))
            (newReleaseBorrowed (db c1_on_loan_r1_banned)) ∧
     alert (after [ReturnCopy "C1" (d_2025_10_01 + 30)] c1_on_loan_r1_banned) =
       alert c1_on_loan_r1_banned).
Proof.
  apply (proj1 on_time_return_frame "C1" (d_2025_10_01 + 30) c1_on_loan_r1_banned).
  vm_compute. reflexivity.
Defined.

(** An existing ban survives an on-time return of another loan. *)
Example on_time_return_keeps_ban :
  Reader.activeBanUntil <$>
    readers (db (after [ReturnCopy "C1" (d_2025_10_01 + 30)] c1_on_loan_r1_banned)) !! "R1" =
  Some (Some (d_2025_10_01 + 92)).
Proof. vm_compute. reflexivity. Qed.

(** ** Availability notices *)

(** C9. [notify_available(bookId, emailLookup, titleLookup)] does nothing when
    no gateway is configured.  With a gateway, and lookups that resolve the
    title of the book and the email of each subscriber, it hands the gateway
    one message per reader subscribed to [bookId], each with the subject
    "Disponible: {title}" and the body "Ya puedes solicitarlo", and nothing
    else.  In every case the subscriptions are what they were: each subscriber
    stays subscribed. *)
Theorem notify_available_spec (bookId : string) (emailLookup titleLookup : Callback)
    (w : World) :
  let subscribers := default ∅ (subs (alert w) !! bookId) in
  (gateway (alert w) = None →
   notify_available bookId emailLookup titleLookup w = Ok tt w) ∧
  (∀ g title (email_of : string → string),
     gateway (alert w) = Some g →
     titleLookup bookId (db w) = inr title →
     (∀ rid, rid ∈ subscribers → emailLookup rid (db w) = inr (email_of rid)) →
     ∃ order,
       NoDup order ∧ (∀ rid, rid ∈ order ↔ rid ∈ subscribers) ∧
       notify_available bookId emailLookup titleLookup w =
       Ok tt (mkWorld (db w) (alert w)
                (outbox w ++
                 map (λ rid, mkEmail (email_of rid) ("Disponible: " +:+ title)
                                     "Ya puedes solicitarlo") order))) ∧
  subs (alert (state_of (notify_available bookId emailLookup titleLookup w))) =
    subs (alert w).
Proof.
  intros subscribers. split_and!.
  - intros Hg. unfold notify_available. rewrite bind_unfold. cbn. by rewrite Hg.
  - intros g title email_of Hg Htitle Hemail.
    exists (elements subscribers). split_and!.
    + apply NoDup_elements.
    + intros rid. apply elem_of_elements.
    + rewrite (notify_available_gateway _ _ g) by done.
      rewrite bind_unfold. unfold call. rewrite Htitle.
      apply (send_loop_Ok emailLookup g title email_of).
      intros rid Hin. apply Hemail. by apply elem_of_elements.
  - by destruct (notify_available_frame bookId emailLookup titleLookup w) as [_ ->].
Qed.

Lemma notify_available_spec_witness :
  ∃ order,
    NoDup order ∧
    (∀ rid, rid ∈ order ↔ rid ∈ default ∅ (subs (alert subscribed_world) !! "B1")) ∧
    notify_available "B1" email_of_reader title_of_book subscribed_world =
    Ok tt (mkWorld (db subscribed_world) (alert subscribed_world)
             (outbox subscribed_world ++
              map (λ rid, mkEmail (if String.eqb rid "R1" then "alice@example.com"
                                   else "bob@example.com")
                                  ("Disponible: " +:+ "Software Engineering")
                                  "Ya puedes solicitarlo") order)).
Proof.
  apply (proj1 (proj2 (notify_available_spec "B1" email_of_reader title_of_book
                         subscribed_world)) ConsoleEmailGateway).
  - reflexivity.
  - reflexivity.
  - intros rid Hin.
    assert (default ∅ (subs (alert subscribed_world) !! "B1") = {["R2"]} ∪ {["R1"]}) as Hs
      by (vm_compute; reflexivity).
    rewrite Hs in Hin.
    apply elem_of_union in Hin as [->%elem_of_singleton | ->%elem_of_singleton];
      reflexivity.
Defined.

Example notify_available_sends_two :
  length (outbox (state_of (notify_available "B1" email_of_reader title_of_book
                              subscribed_world))) = 2%nat ∧
  default ∅ (subs (alert (state_of (notify_available "B1" email_of_reader title_of_book
                                      subscribed_world))) !! "B1") = {["R1"; "R2"]}.
Proof. split; vm_compute; reflexivity. Qed.

(** ** What a successful [borrow_copy] does *)

Lemma dict_set_fresh {V} (k : string) (v : V) (d : list (string * V)) :
  k ∉ d.*1 → dict_set k v d = (d ++ [(k, v)])%list.
Proof.
  induction d as [|[k0 v0] d IH]; csimpl; [done|].
  rewrite not_elem_of_cons. intros [Hne Hnin].
  apply String.eqb_neq in Hne as ->. by rewrite IH.
Qed.

Lemma generated_ids_next_fresh l :
  generated_ids l → "L" +:+ pretty (length l + 1)%nat ∉ l.*1.
Proof.
  unfold generated_ids. intros -> (i & Heq & Hi)%list_elem_of_fmap.
  cbv [String.append] in Heq. injection Heq as Heq.
  apply (inj pretty) in Heq as <-. apply elem_of_seq in Hi. lia.
Qed.

Lemma generated_ids_snoc l L :
  generated_ids l → generated_ids (l ++ [("L" +:+ pretty (length l + 1)%nat, L)])%list.
Proof.
  unfold generated_ids. intros Hl.
  rewrite fmap_app, length_app, Hl at 1. csimpl.
  rewrite seq_app, fmap_app. csimpl. by rewrite Nat.add_comm.
Qed.

(** C5 (amended). A successful [borrow_copy(copyId, readerId, asOf)]
    stores, under the id "L" followed by the number of loans plus one, a loan
    of the copy to the reader with [start = asOf], [due = asOf + 30] days and
    no return date; the copy becomes LOANED; that id is appended to the
    reader's [activeLoanIds] and returned; no message goes to the gateway.
    When the ids of the existing loans are L1, L2, ... in order, as the
    service generates them, the id is a new one and the loan is added after
    the existing loans, whose ids stay of that form. *)
Theorem borrow_copy_effect (copyId readerId : string) (asOf : date) (w : World)
    (loanId : string) (w' : World) :
  borrow_copy copyId readerId asOf w = Ok loanId w' →
  ∃ c r,
    copies (db w) !! copyId = Some c ∧
    readers (db w) !! readerId = Some r ∧
    loanId = "L" +:+ pretty (length (loans (db w)) + 1)%nat ∧
    dict_get loanId (loans (db w')) =
      Some (Loan.mk copyId (Copy.bookId c) readerId asOf (asOf + 30) None) ∧
    copies (db w') !! copyId =
      Some (Copy.mk (Copy.id c) (Copy.bookId c) CopyStatus.LOANED) ∧
    readers (db w') !! readerId =
      Some (Reader.mk (Reader.id r) (Reader.email r) (Reader.activeBanUntil r)
                      (Reader.activeLoanIds r ++ [loanId])) ∧
    outbox w' = outbox w ∧
    (generated_ids (loans (db w)) →
     (loanId ∉ (loans (db w)).*1) ∧
     loans (db w') =
       (loans (db w) ++
        [(loanId, Loan.mk copyId (Copy.bookId c) readerId asOf (asOf + 30) None)])%list ∧
     generated_ids (loans (db w'))).
Proof.
  intros (c & r & Hc & Hr & _ & _ & _ & -> & ->)%borrow_copy_Ok.
  exists c, r. cbn. split_and!; try done.
  - by rewrite dict_get_set, String.eqb_refl.
  - apply lookup_insert_eq.
  - apply lookup_insert_eq.
  - intros Hgen. pose proof (generated_ids_next_fresh _ Hgen) as Hfresh.
    unfold next_loan_id. rewrite (dict_set_fresh _ _ _ Hfresh).
    split_and!; [done..|]. by apply generated_ids_snoc.
Qed.

Lemma borrow_copy_effect_witness :
  ∃ c r,
    copies (db seed) !! "C1" = Some c ∧
    readers (db seed) !! "R1" = Some r ∧
    "L1" = "L" +:+ pretty (length (loans (db seed)) + 1)%nat ∧
    dict_get "L1" (loans (db c1_on_loan)) =
      Some (Loan.mk "C1" (Copy.bookId c) "R1" d_2025_10_01 (d_2025_10_01 + 30) None) ∧
    copies (db c1_on_loan) !! "C1" =
      Some (Copy.mk (Copy.id c) (Copy.bookId c) CopyStatus.LOANED) ∧
    readers (db c1_on_loan) !! "R1" =
      Some (Reader.mk (Reader.id r) (Reader.email r) (Reader.activeBanUntil r)
                      (Reader.activeLoanIds r ++ ["L1"])) ∧
    outbox c1_on_loan = outbox seed ∧
    (generated_ids (loans (db seed)) →
     ("L1" ∉ (loans (db seed)).*1) ∧
     loans (db c1_on_loan) =
       (loans (db seed) ++
        [("L1", Loan.mk "C1" (Copy.bookId c) "R1" d_2025_10_01 (d_2025_10_01 + 30)
                        None)])%list ∧
     generated_ids (loans (db c1_on_loan))).
Proof.
  apply (borrow_copy_effect "C1" "R1" d_2025_10_01 seed "L1" c1_on_loan).
  vm_compute. reflexivity.
Defined.

Example test_due_30_dias :
  Loan.due <$> dict_get "L1" (loans (db c1_on_loan)) = Some (d_2025_10_01 + 30).
Proof. vm_compute. reflexivity. Qed.

(** C5 (as stated) fails there: the id the borrow returns is the id
    of the loan the store already holds, and that loan is replaced. *)
Lemma borrow_copy_id_not_fresh :
  borrow_copy "C1" "R1" d_2025_10_01 restored_world =
    Ok "L2" (after [BorrowCopy "C1" "R1" d_2025_10_01] restored_world) ∧
  dict_get "L2" (loans (db restored_world)) =
    Some (Loan.mk "C2" "B1" "R2" (d_2025_10_01 - 60) (d_2025_10_01 - 30)
                  (Some (d_2025_10_01 - 40))) ∧
  loans (db (after [BorrowCopy "C1" "R1" d_2025_10_01] restored_world)) =
    [("L2", Loan.mk "C1" "B1" "R1" d_2025_10_01 (d_2025_10_01 + 30) None)] ∧
  ¬ ("L2" ∉ (loans (db restored_world)).*1).
Proof.
  split_and!; [vm_compute; reflexivity..|].
  intros Hfresh. apply Hfresh. simpl. apply list_elem_of_here.
Qed.

(** ** At most three active loans *)










Example test_limite_3_prestamos :
  borrow_copy "C4" "R1" d_2025_10_01 r1_holds_three =
  Raise (ValueError BORROW_FORBIDDEN) r1_holds_three.
Proof. vm_compute. reflexivity. Qed.

Example test_borrow_prohibido_si_baneado :
  borrow_copy "C2" "R1" (d_2025_10_01 + 92) c1_on_loan_r1_banned =
  Raise (ValueError BORROW_FORBIDDEN) c1_on_loan_r1_banned.
Proof. vm_compute. reflexivity. Qed.

(** The checks on what is asked for come before the check on the reader: for
    R1 there, who holds three loans, a copy the store does not hold raises
    COPY_NOT_FOUND and the original of B1, which is not a new release, raises
    NOT_NEW_RELEASE. *)
Example full_reader_missing_target :
  borrow_copy "C9" "R1" d_2025_10_01 r1_holds_three =
    Raise (ValueError COPY_NOT_FOUND) r1_holds_three ∧
  borrow_original_new_release "B1" "R1" d_2025_10_01 r1_holds_three =
    Raise (ValueError NOT_NEW_RELEASE) r1_holds_three.
Proof. split; vm_compute; reflexivity. Qed.

(** ** One open loan of an original at a time *)

Section CountLoans.
Variable p : Loan.t → bool.

Lemma count_loans_set_le k L l :
  (count_loans p (dict_set k L l) ≤ count_loans p l + if p L then 1 else 0)%nat.
Proof.
  induction l as [|[k0 L0] l IH]; simpl; [lia|].
  destruct (String.eqb k k0); simpl; [destruct (p L), (p L0); lia | lia].
Qed.

Lemma count_loans_set_not k L l :
  p L = false → (count_loans p (dict_set k L l) ≤ count_loans p l)%nat.
Proof. intros HL. pose proof (count_loans_set_le k L l) as H. rewrite HL in H. lia. Qed.

Lemma count_loans_alter_le f k l :
  (∀ L, p (f L) = true → p L = true) →
  (count_loans p (dict_alter f k l) ≤ count_loans p l)%nat.
Proof.
  intros Hf. induction l as [|[k0 L0] l IH]; simpl; [lia|].
  destruct (String.eqb k k0); simpl; [|lia].
  destruct (p (f L0)) eqn:HfL; [by rewrite (Hf _ HfL) | destruct (p L0); lia].
Qed.

(** Closing the entry the loop stopped at takes one loan off the count. *)
Lemma count_loans_alter_found q f k l :
  NoDup l.*1 →
  (∀ L, q L = true → p L = true) →
  (∀ L, p (f L) = false) →
  dict_find q l = Some k →
  (count_loans p (dict_alter f k l) + 1 = count_loans p l)%nat.
Proof.
  intros Hnd Hq Hf. induction l as [|[k0 L0] l IH]; csimpl in *; [discriminate|].
  apply NoDup_cons in Hnd as [Hk0 Hnd]. destruct (q L0) eqn:HqL.
  - intros [= ->]. rewrite String.eqb_refl. simpl. rewrite Hf, (Hq _ HqL). lia.
  - intros Hfind. destruct (String.eqb_spec k k0) as [->|Hne].
    + destruct (dict_find_Some _ _ _ Hfind) as [L HL].
      apply dict_get_None in Hk0. congruence.
    + simpl. rewrite <-(IH Hnd Hfind). lia.
Qed.
End CountLoans.

Lemma is_open_original_closed b when L :
  is_open_original b (Loan.set_returned (Some when) L) = false.
Proof.
  unfold is_open_original. apply andb_false_iff. right.
  by apply bool_decide_eq_false.
Qed.

Lemma open_original_loan_is_open b r L :
  open_original_loan b r L = true → is_open_original b L = true.
Proof.
  unfold open_original_loan, is_open_original.
  rewrite !andb_true_iff. tauto.
Qed.

Lemma is_open_original_copy_loan b copyId L :
  copyId ≠ "" → Loan.copyId L = copyId → is_open_original b L = false.
Proof.
  intros Hne HL. unfold is_open_original. rewrite HL.
  by apply String.eqb_neq in Hne as ->.
Qed.

Lemma is_open_original_inv b L :
  is_open_original b L = true → Loan.copyId L = "" ∧ Loan.bookId L = b.
Proof.
  unfold is_open_original. rewrite !andb_true_iff.
  intros [[?%String.eqb_eq ?%String.eqb_eq] _]. done.
Qed.

Lemma originals_consistent_step w w' :
  originals_consistent (db w) → step w w' → originals_consistent (db w').
Proof.
  intros (Hnd & Hempty & Hcount) [op v Hop]. destruct op; simpl in Hop;
    apply bind_Ok_inv in Hop as (a & w1 & Hop & [= _ <-]).
  - apply borrow_copy_Ok in Hop as (c & r & Hc & _ & _ & _ & _ & _ & ->).
    unfold originals_consistent. cbn.
    assert (copyId ≠ "") as Hne by (intros ->; congruence).
    split_and!.
    + by apply dict_set_keys_NoDup.
    + by rewrite lookup_insert_ne.
    + intros b. etrans; [|apply Hcount].
      apply count_loans_set_not. by apply (is_open_original_copy_loan b copyId).
  - apply borrow_original_Ok in Hop as (b0 & r & _ & _ & _ & _ & Hout & _ & -> & ->).
    unfold originals_consistent. cbn.
    split_and!.
    + by apply dict_set_keys_NoDup.
    + done.
    + intros b. pose proof (Hcount b) as Hb.
      pose proof (count_loans_set_le (is_open_original b) (next_loan_id (db w))
                    (Loan.mk "" bookId readerId today (today + 30) None)
                    (loans (db w))) as Hset.
      destruct (decide (b = bookId)) as [->|Hne].
      * rewrite bool_decide_eq_false_2 in Hb by done.
        rewrite bool_decide_eq_true_2 by set_solver.
        destruct (is_open_original _ _) in Hset; lia.
      * assert (is_open_original b (Loan.mk "" bookId readerId today (today + 30) None)
                = false) as Hnot.
        { destruct (is_open_original b _) eqn:Hopen; [|done].
          apply is_open_original_inv in Hopen as [_ Hopen]. by cbn in Hopen. }
        rewrite Hnot in Hset. etrans; [|etrans; [apply Hb|]]; [lia|].
        by repeat case_bool_decide; first [lia | set_solver].
  - destruct a. apply return_copy_Ok in Hop
      as (c & loanId & L & R & Hc & _ & _ & _ & _ & _ & Hdb & _).
    unfold originals_consistent. rewrite Hdb. cbn. assert (copyId ≠ "") as Hne by (intros ->; congruence).
    split_and!.
    + by rewrite dict_alter_keys.
    + by rewrite lookup_insert_ne.
    + intros b. etrans; [|apply Hcount]. apply count_loans_alter_le.
      intros L0. by rewrite is_open_original_closed.
  - destruct a. apply return_original_Ok in Hop
      as (loanId & L & R & _ & Hin & Hfind & _ & _ & _ & Hdb & _).
    unfold originals_consistent. rewrite Hdb. cbn. split_and!.
    + by rewrite dict_alter_keys.
    + done.
    + intros b. pose proof (Hcount b) as Hb.
      destruct (decide (b = bookId)) as [->|Hne].
      * rewrite bool_decide_eq_true_2 in Hb by done.
        pose proof (count_loans_alter_found (is_open_original bookId)
                      (open_original_loan bookId readerId)
                      (Loan.set_returned (Some when)) loanId (loans (db w)) Hnd
                      (open_original_loan_is_open bookId readerId)
                      (is_open_original_closed bookId when) Hfind) as Hone.
        lia.
      * etrans; [apply count_loans_alter_le|etrans; [apply Hb|]].
        { intros L0. by rewrite is_open_original_closed. }
        by repeat case_bool_decide; first [lia | set_solver].
Qed.

Lemma borrow_original_succeeds bookId readerId today w b r :
  books (db w) !! bookId = Some b →
  readers (db w) !! readerId = Some r →
  Book.isNewRelease b = true →
  Reader.can_borrow r today = true →
  bookId ∉ newReleaseBorrowed (db w) →
  MINORDINAL ≤ today + 30 ≤ MAXORDINAL →
  ∃ w', borrow_original_new_release bookId readerId today w = Ok (next_loan_id (db w)) w'.
Proof.
  intros Hb Hr Hnew Hcan Hout Hrange.
  unfold borrow_original_new_release. rewrite bind_unfold. cbn.
  rewrite Hb, Hr, Hnew, Hcan. cbn. rewrite bool_decide_eq_false_2 by done.
  rewrite bind_unfold, add_days_in_range by done. cbn. eauto.
Qed.

Lemma originals_consistent_seed : originals_consistent (db seed).
Proof.
  split_and!.
  - apply NoDup_nil_2.
  - vm_compute. reflexivity.
  - intros b. simpl. lia.
Defined.

Example test_new_release_original_exclusivo :
  borrow_original_new_release "B2" "R1" d_2025_10_01 b2_on_loan =
    Raise (ValueError ORIGINAL_ALREADY_BORROWED) b2_on_loan ∧
  newReleaseBorrowed
    (db (after [ReturnOriginal "B2" "R2" (d_2025_10_01 + 9);
                BorrowOriginal "B2" "R1" d_2025_10_01] b2_on_loan)) = {["B2"]} ∧
  count_loans (is_open_original "B2")
    (loans (db (after [ReturnOriginal "B2" "R2" (d_2025_10_01 + 9);
                       BorrowOriginal "B2" "R1" d_2025_10_01] b2_on_loan))) = 1%nat.
Proof. split_and!; vm_compute; reflexivity. Qed.

(** C7 (as stated) fails there: B2, a new release, is in the borrowed
    originals, and the attempt of R1 to borrow its original on 2025-11-06
    raises BORROW_FORBIDDEN, not ORIGINAL_ALREADY_BORROWED. *)
Lemma borrowed_original_other_fault :
  Book.isNewRelease <$> books (db b2_on_loan_r1_banned) !! "B2" = Some true ∧
  bool_decide ("B2" ∈ newReleaseBorrowed (db b2_on_loan_r1_banned)) = true ∧
  Reader.activeBanUntil <$> readers (db b2_on_loan_r1_banned) !! "R1" =
    Some (Some (d_2025_10_01 + 45)) ∧
  borrow_original_new_release "B2" "R1" (d_2025_10_01 + 36) b2_on_loan_r1_banned =
    Raise (ValueError BORROW_FORBIDDEN) b2_on_loan_r1_banned ∧
  borrow_original_new_release "B2" "R1" (d_2025_10_01 + 36) b2_on_loan_r1_banned ≠
    Raise (ValueError ORIGINAL_ALREADY_BORROWED) b2_on_loan_r1_banned.
Proof.
  assert (borrow_original_new_release "B2" "R1" (d_2025_10_01 + 36) b2_on_loan_r1_banned =
          Raise (ValueError BORROW_FORBIDDEN) b2_on_loan_r1_banned) as Hforbidden
    by (vm_compute; reflexivity).
  split_and!; [vm_compute; reflexivity.. | exact Hforbidden |].
  rewrite Hforbidden. discriminate.
Qed.

(** Why a consistent store has no copy under the empty id: the loan of such a
    copy reads as a loan of the original, and the original can still be
    borrowed. *)
Example empty_copy_id_two_open_originals :
  count_loans (is_open_original "B2")
    (loans (db (after [BorrowCopy "" "R1" d_2025_10_01;
                       BorrowOriginal "B2" "R2" d_2025_10_01] empty_copy_id_world))) = 2%nat.
Proof. vm_compute. reflexivity. Qed.

(** * Further properties of the module *)

(** ** The checks of the other three operations *)

(** X1. [borrow_original_new_release(bookId, readerId, today)] checks, in this
    order: the book exists, else BOOK_NOT_FOUND; the reader exists, else
    READER_NOT_FOUND; the book is a new release, else NOT_NEW_RELEASE; the
    reader can borrow, else BORROW_FORBIDDEN; the original is not out, else
    ORIGINAL_ALREADY_BORROWED.  Each fault leaves the state as it was, and
    when all five pass the call returns the next loan id, provided the due
    date exists. *)
Theorem borrow_original_checks_in_order (bookId readerId : string) (today : date)
    (w : World) :
  (books (db w) !! bookId = None →
   borrow_original_new_release bookId readerId today w =
   Raise (ValueError BOOK_NOT_FOUND) w) ∧
  (∀ b, books (db w) !! bookId = Some b →
        readers (db w) !! readerId = None →
        borrow_original_new_release bookId readerId today w =
        Raise (ValueError READER_NOT_FOUND) w) ∧
  (∀ b r, books (db w) !! bookId = Some b →
          readers (db w) !! readerId = Some r →
          Book.isNewRelease b = false →
          borrow_original_new_release bookId readerId today w =
          Raise (ValueError NOT_NEW_RELEASE) w) ∧
  (∀ b r, books (db w) !! bookId = Some b →
          readers (db w) !! readerId = Some r →
          Book.isNewRelease b = true →
          Reader.can_borrow r today = false →
          borrow_original_new_release bookId readerId today w =
          Raise (ValueError BORROW_FORBIDDEN) w) ∧
  (∀ b r, books (db w) !! bookId = Some b →
          readers (db w) !! readerId = Some r →
          Book.isNewRelease b = true →
          Reader.can_borrow r today = true →
          bookId ∈ newReleaseBorrowed (db w) →
          borrow_original_new_release bookId readerId today w =
          Raise (ValueError ORIGINAL_ALREADY_BORROWED) w) ∧
  (∀ b r, books (db w) !! bookId = Some b →
          readers (db w) !! readerId = Some r →
          Book.isNewRelease b = true →
          Reader.can_borrow r today = true →
          bookId ∉ newReleaseBorrowed (db w) →
          MINORDINAL ≤ today + 30 ≤ MAXORDINAL →
          ∃ w', borrow_original_new_release bookId readerId today w =
                Ok (next_loan_id (db w)) w').
Proof.
  unfold borrow_original_new_release. rewrite bind_unfold. cbn. split_and!.
  - by intros ->.
  - by intros b -> ->.
  - by intros b r -> -> ->.
  - by intros b r -> -> -> ->.
  - intros b r -> -> -> -> Hin. cbn. by rewrite bool_decide_eq_true_2.
  - intros b r -> -> -> -> Hout Hrange. cbn. rewrite bool_decide_eq_false_2 by done.
    rewrite bind_unfold, add_days_in_range by done. cbn. eauto.
Qed.

Lemma borrow_original_checks_in_order_witness :
  borrow_original_new_release "B1" "R1" d_2025_10_01 seed =
  Raise (ValueError NOT_NEW_RELEASE) seed.
Proof.
  apply (proj1 (proj2 (proj2 (borrow_original_checks_in_order "B1" "R1" d_2025_10_01 seed)))
           (Book.mk "B1" "Software Engineering" 2020
                    (Author.mk "Ian Sommerville" "1951-08-23") "10th" false)
           (Reader.mk "R1" "alice@example.com" None []));
    vm_compute; reflexivity.
Defined.

(** X2. [return_copy(copyId, when)] checks, in this order: the copy exists,
    else COPY_NOT_FOUND; its status is LOANED or LATE, else COPY_NOT_LOANED;
    some loan of that copy is open, else LOAN_NOT_FOUND, which is also what a
    loan filed under the empty id gives, since the test is [not loanId].  A
    loan whose borrower the store does not hold then raises [KeyError] with
    the borrower's id.  In each of these cases the state is left as it was. *)
Theorem return_copy_checks_in_order (copyId : string) (when : date) (w : World) :
  (copies (db w) !! copyId = None →
   return_copy copyId when w = Raise (ValueError COPY_NOT_FOUND) w) ∧
  (∀ c, copies (db w) !! copyId = Some c →
        Copy.status c ≠ CopyStatus.LOANED → Copy.status c ≠ CopyStatus.LATE →
        return_copy copyId when w = Raise (ValueError COPY_NOT_LOANED) w) ∧
  (∀ c, copies (db w) !! copyId = Some c →
        Copy.status c = CopyStatus.LOANED ∨ Copy.status c = CopyStatus.LATE →
        dict_find (open_loan_of_copy copyId) (loans (db w)) = None →
        return_copy copyId when w = Raise (ValueError LOAN_NOT_FOUND) w) ∧
  (∀ c, copies (db w) !! copyId = Some c →
        Copy.status c = CopyStatus.LOANED ∨ Copy.status c = CopyStatus.LATE →
        dict_find (open_loan_of_copy copyId) (loans (db w)) = Some "" →
        return_copy copyId when w = Raise (ValueError LOAN_NOT_FOUND) w) ∧
  (∀ c loanId L,
        copies (db w) !! copyId = Some c →
        Copy.status c = CopyStatus.LOANED ∨ Copy.status c = CopyStatus.LATE →
        dict_find (open_loan_of_copy copyId) (loans (db w)) = Some loanId →
        loanId ≠ "" →
        dict_get loanId (loans (db w)) = Some L →
        readers (db w) !! Loan.readerId L = None →
        return_copy copyId when w = Raise (KeyError (Loan.readerId L)) w).
Proof.
  assert (∀ c, Copy.status c = CopyStatus.LOANED ∨ Copy.status c = CopyStatus.LATE →
               negb (String.eqb (Copy.status c) CopyStatus.LOANED
                     || String.eqb (Copy.status c) CopyStatus.LATE) = false) as Hst.
  { intros c [-> | ->]; reflexivity. }
  unfold return_copy. rewrite bind_unfold. cbn. split_and!.
  - by intros ->.
  - intros c -> Hl%String.eqb_neq Hla%String.eqb_neq. by rewrite Hl, Hla.
  - intros c -> Hc ->. by rewrite (Hst c Hc).
  - intros c -> Hc ->. by rewrite (Hst c Hc).
  - intros c loanId L -> Hc -> Hne%String.eqb_neq HL HR. rewrite (Hst c Hc), Hne.
    rewrite bind_unfold. unfold lookup_loan. rewrite bind_unfold. cbn. rewrite HL. cbn.
    rewrite bind_unfold. unfold lookup_reader. rewrite bind_unfold. cbn. by rewrite HR.
Qed.

Lemma return_copy_checks_in_order_witness :
  return_copy "C2" (d_2025_10_01 + 1) c1_on_loan =
  Raise (ValueError COPY_NOT_LOANED) c1_on_loan.
Proof.
  apply (proj1 (proj2 (return_copy_checks_in_order "C2" (d_2025_10_01 + 1) c1_on_loan))
           (Copy.mk "C2" "B1" CopyStatus.IN_LIBRARY)).
  - vm_compute. reflexivity.
  - discriminate.
  - discriminate.
Defined.

(** X3. [return_original_new_release(bookId, readerId, when)] checks, in this
    order: the book exists, else BOOK_NOT_FOUND; the reader exists, else
    READER_NOT_FOUND; the original is out, else ORIGINAL_NOT_BORROWED; the
    store has an open loan of that original to that very reader, else
    LOAN_NOT_FOUND (so a reader cannot return an original that another reader
    holds).  Each fault leaves the state as it was. *)
Theorem return_original_checks_in_order (bookId readerId : string) (when : date)
    (w : World) :
  (books (db w) !! bookId = None →
   return_original_new_release bookId readerId when w =
   Raise (ValueError BOOK_NOT_FOUND) w) ∧
  (is_Some (books (db w) !! bookId) →
   readers (db w) !! readerId = None →
   return_original_new_release bookId readerId when w =
   Raise (ValueError READER_NOT_FOUND) w) ∧
  (is_Some (books (db w) !! bookId) →
   is_Some (readers (db w) !! readerId) →
   bookId ∉ newReleaseBorrowed (db w) →
   return_original_new_release bookId readerId when w =
   Raise (ValueError ORIGINAL_NOT_BORROWED) w) ∧
  (is_Some (books (db w) !! bookId) →
   is_Some (readers (db w) !! readerId) →
   bookId ∈ newReleaseBorrowed (db w) →
   (∀ k L, (k, L) ∈ loans (db w) →
           Loan.bookId L = bookId → Loan.copyId L = "" → Loan.returned L = None →
           Loan.readerId L ≠ readerId) →
   return_original_new_release bookId readerId when w =
   Raise (ValueError LOAN_NOT_FOUND) w).
Proof.
  unfold return_original_new_release. rewrite bind_unfold. cbn. split_and!.
  - intros Hb. rewrite bool_decide_eq_true_2; [done|]. by apply not_elem_of_dom.
  - intros Hb Hr. rewrite bool_decide_eq_false_2 by (intros H; apply H; by apply elem_of_dom).
    rewrite bool_decide_eq_true_2; [done|]. by apply not_elem_of_dom.
  - intros Hb Hr Hout.
    rewrite bool_decide_eq_false_2 by (intros H; apply H; by apply elem_of_dom).
    rewrite bool_decide_eq_false_2 by (intros H; apply H; by apply elem_of_dom).
    by rewrite bool_decide_eq_true_2.
  - intros Hb Hr Hin Hother.
    rewrite bool_decide_eq_false_2 by (intros H; apply H; by apply elem_of_dom).
    rewrite bool_decide_eq_false_2 by (intros H; apply H; by apply elem_of_dom).
    rewrite bool_decide_eq_false_2 by (intros H; by apply H).
    assert (dict_find (open_original_loan bookId readerId) (loans (db w)) = None) as ->;
      [|done].
    induction (loans (db w)) as [|[k L] l IH]; simpl; [done|].
    destruct (open_original_loan bookId readerId L) eqn:Hopen.
    + exfalso. unfold open_original_loan in Hopen.
      apply andb_prop in Hopen as [[[Hbk%String.eqb_eq Hrd%String.eqb_eq]%andb_prop
                                     Hcp%String.eqb_eq]%andb_prop Hret%bool_decide_eq_true].
      by apply (Hother k L); [apply list_elem_of_here|..].
    + apply IH. intros k' L' Hin'. apply (Hother k' L'). by apply list_elem_of_further.
Qed.

Lemma return_original_checks_in_order_witness :
  return_original_new_release "B2" "R1" (d_2025_10_01 + 1) b2_on_loan =
  Raise (ValueError LOAN_NOT_FOUND) b2_on_loan.
Proof.
  apply (proj2 (proj2 (proj2 (return_original_checks_in_order "B2" "R1" (d_2025_10_01 + 1)
                                b2_on_loan)))).
  - vm_compute. eauto.
  - vm_compute. eauto.
  - apply (bool_decide_unpack _). vm_compute. exact I.
  - intros k L Hin _ _ _.
    assert (loans (db b2_on_loan) =
            [("L1", Loan.mk "" "B2" "R2" d_2025_10_01 (d_2025_10_01 + 30) None)]) as Hl
      by (vm_compute; reflexivity).
    rewrite Hl in Hin. apply list_elem_of_singleton in Hin. injection Hin as -> ->.
    discriminate.
Defined.

(** ** What a successful [borrow_original_new_release] does *)

(** X4. A successful [borrow_original_new_release(bookId, readerId, today)]
    stores, under the id "L" followed by the number of loans plus one, a loan
    with the empty [copyId], the book, the reader, [start = today],
    [due = today + 30] and no return date; the book joins the borrowed
    originals; the id is appended to the [activeLoanIds] of the reader, whose
    record is otherwise as it was, and returned; books and copies are
    untouched and nothing is sent.  When the ids of the existing loans are
    L1, L2, ... in order, the id is a new one and the loan is added after
    them. *)
Theorem borrow_original_effect (bookId readerId : string) (today : date) (w : World)
    (loanId : string) (w' : World) :
  borrow_original_new_release bookId readerId today w = Ok loanId w' →
  ∃ r,
    readers (db w) !! readerId = Some r ∧
    loanId = "L" +:+ pretty (length (loans (db w)) + 1)%nat ∧
    dict_get loanId (loans (db w')) =
      Some (Loan.mk "" bookId readerId today (today + 30) None) ∧
    newReleaseBorrowed (db w') = newReleaseBorrowed (db w) ∪ {[bookId]} ∧
    readers (db w') !! readerId =
      Some (Reader.mk (Reader.id r) (Reader.email r) (Reader.activeBanUntil r)
                      (Reader.activeLoanIds r ++ [loanId])) ∧
    books (db w') = books (db w) ∧
    copies (db w') = copies (db w) ∧
    alert w' = alert w ∧
    outbox w' = outbox w ∧
    (generated_ids (loans (db w)) →
     (loanId ∉ (loans (db w)).*1) ∧
     loans (db w') =
       (loans (db w) ++
        [(loanId, Loan.mk "" bookId readerId today (today + 30) None)])%list).
Proof.
  intros (b & r & _ & Hr & _ & _ & _ & _ & -> & ->)%borrow_original_Ok.
  exists r. cbn. split_and!; try done.
  - by rewrite dict_get_set, String.eqb_refl.
  - apply lookup_insert_eq.
  - intros Hgen. pose proof (generated_ids_next_fresh _ Hgen) as Hfresh.
    unfold next_loan_id. by rewrite (dict_set_fresh _ _ _ Hfresh).
Qed.

Lemma borrow_original_effect_witness :
  ∃ r,
    readers (db seed) !! "R2" = Some r ∧
    "L1" = "L" +:+ pretty (length (loans (db seed)) + 1)%nat ∧
    dict_get "L1" (loans (db b2_on_loan)) =
      Some (Loan.mk "" "B2" "R2" d_2025_10_01 (d_2025_10_01 + 30) None) ∧
    newReleaseBorrowed (db b2_on_loan) = newReleaseBorrowed (db seed) ∪ {["B2"]} ∧
    readers (db b2_on_loan) !! "R2" =
      Some (Reader.mk (Reader.id r) (Reader.email r) (Reader.activeBanUntil r)
                      (Reader.activeLoanIds r ++ ["L1"])) ∧
    books (db b2_on_loan) = books (db seed) ∧
    copies (db b2_on_loan) = copies (db seed) ∧
    alert b2_on_loan = alert seed ∧
    outbox b2_on_loan = outbox seed ∧
    (generated_ids (loans (db seed)) →
     ("L1" ∉ (loans (db seed)).*1) ∧
     loans (db b2_on_loan) =
       (loans (db seed) ++
        [("L1", Loan.mk "" "B2" "R2" d_2025_10_01 (d_2025_10_01 + 30) None)])%list).
Proof.
  apply (borrow_original_effect "B2" "R2" d_2025_10_01 seed "L1" b2_on_loan).
  vm_compute. reflexivity.
Defined.

(** ** Subscriptions *)

(** X5. [subscribe(bookId, readerId)] always returns; it adds the reader to the
    subscribers of the book and leaves the subscribers of the other books,
    the gateway, the store and the messages alone; subscribing again changes
    nothing.  Once subscribed, the reader gets a notice at the next
    [notify_available] of the book (with a gateway, and lookups that
    resolve), which then sends as many messages as the book has
    subscribers. *)
Theorem subscribe_then_notified (bookId readerId : string) (w : World) :
  let w1 := state_of (subscribe bookId readerId w) in
  subscribe bookId readerId w = Ok tt w1 ∧
  db w1 = db w ∧ gateway (alert w1) = gateway (alert w) ∧ outbox w1 = outbox w ∧
  default ∅ (subs (alert w1) !! bookId) =
    default ∅ (subs (alert w) !! bookId) ∪ {[readerId]} ∧
  (∀ b, b ≠ bookId → subs (alert w1) !! b = subs (alert w) !! b) ∧
  subscribe bookId readerId w1 = Ok tt w1 ∧
  (∀ g title (email_of : string → string) emailLookup titleLookup,
     gateway (alert w) = Some g →
     titleLookup bookId (db w) = inr title →
     (∀ rid, rid ∈ default ∅ (subs (alert w) !! bookId) ∪ {[readerId]} →
             emailLookup rid (db w) = inr (email_of rid)) →
     ∃ w2, notify_available bookId emailLookup titleLookup w1 = Ok tt w2 ∧
           mkEmail (email_of readerId) ("Disponible: " +:+ title)
                   "Ya puedes solicitarlo" ∈ drop (length (outbox w)) (outbox w2) ∧
           length (outbox w2) =
           (length (outbox w) +
            size (default ∅ (subs (alert w) !! bookId) ∪ {[readerId]}))%nat).
Proof.
  cbn. split_and!; try done.
  - by rewrite lookup_insert_eq.
  - intros b Hne. by rewrite lookup_insert_ne.
  - unfold subscribe, modify_alert. cbn. do 3 f_equal.
    rewrite lookup_insert_eq, insert_insert_eq. cbn. f_equal.
    by rewrite <-(assoc_L (∪)), (idemp_L (∪)).
  - intros g title email_of ce ct Hg Htitle Hemail.
    set (S := default ∅ (subs (alert w) !! bookId) ∪ {[readerId]}) in *.
    eexists. split.
    + rewrite (notify_available_gateway _ _ g) by done. cbn.
      rewrite bind_unfold. unfold call. cbn. rewrite Htitle, lookup_insert_eq. cbn.
      apply (send_loop_Ok ce g title email_of).
      intros rid Hin. cbn. apply Hemail. by apply elem_of_elements.
    + cbn. rewrite drop_app_length, length_app, length_map. split; [|done].
      apply (list_elem_of_fmap_2' (λ rid, notice title (email_of rid)) _ readerId); [|done].
      apply elem_of_elements. subst S. by apply elem_of_union_r, elem_of_singleton.
Qed.

Lemma subscribe_then_notified_witness :
  ∃ w2,
    notify_available "B1" email_of_reader title_of_book
      (state_of (subscribe "B1" "R1" (state_of (set_gateway (Some ConsoleEmailGateway) seed))))
    = Ok tt w2 ∧
    mkEmail "alice@example.com" ("Disponible: " +:+ "Software Engineering")
            "Ya puedes solicitarlo" ∈ drop 0 (outbox w2) ∧
    length (outbox w2) = (0 + size (∅ ∪ {["R1"]} : gset string))%nat.
Proof.
  apply (proj2 (proj2 (proj2 (proj2 (proj2 (proj2 (proj2
           (subscribe_then_notified "B1" "R1"
              (state_of (set_gateway (Some ConsoleEmailGateway) seed)))))))))
           ConsoleEmailGateway "Software Engineering" (λ _, "alice@example.com")
           email_of_reader title_of_book).
  - reflexivity.
  - reflexivity.
  - intros rid Hin. cbn in Hin. rewrite lookup_empty in Hin. cbn in Hin.
    apply elem_of_union in Hin as [Hin | ->%elem_of_singleton]; [|reflexivity].
    by apply not_elem_of_empty in Hin.
Defined.

(** ** Frames that hold whatever the outcome *)

Section Preserves.
Variable Rel : World → World → Prop.
Context `{!Reflexive Rel, !Transitive Rel}.

Lemma preserves_bind {A B} (m : M A) (k : A → M B) :
  preserves Rel m → (∀ a, preserves Rel (k a)) → preserves Rel (m ≫= k).
Proof.
  intros Hm Hk w. rewrite bind_unfold. specialize (Hm w).
  destruct (m w) as [a w1|e w1]; simpl in *; [|done].
  by etrans; [exact Hm | apply Hk].
Qed.

Lemma preserves_same_state {A} (m : M A) :
  (∀ w, state_of (m w) = w) → preserves Rel m.
Proof. intros H w. by rewrite H. Qed.

Lemma preserves_ret {A} (a : A) : preserves Rel (mret a : M A).
Proof. by apply preserves_same_state. Qed.

Lemma preserves_raise {A} e : preserves Rel (raise e : M A).
Proof. by apply preserves_same_state. Qed.

Lemma preserves_add_days d n : preserves Rel (add_days d n).
Proof. apply preserves_same_state. intros w. unfold add_days. by destruct (_ && _). Qed.

Lemma preserves_lookup_loan k : preserves Rel (lookup_loan k).
Proof.
  apply preserves_same_state. intros w. unfold lookup_loan. rewrite bind_unfold. cbn.
  by destruct (dict_get k _).
Qed.

Lemma preserves_lookup_reader k : preserves Rel (lookup_reader k).
Proof.
  apply preserves_same_state. intros w. unfold lookup_reader. rewrite bind_unfold. cbn.
  by destruct (_ !! k).
Qed.

(** The writes of the service. *)
Hypothesis set_loan_ok : ∀ k L, preserves Rel (set_loan k L).
Hypothesis set_status_ok : ∀ s k, preserves Rel (alter_copy (Copy.set_status s) k).
Hypothesis set_activeLoanIds_ok :
  ∀ g k, preserves Rel (alter_reader (λ r, Reader.set_activeLoanIds (g r) r) k).
Hypothesis set_activeBanUntil_ok :
  ∀ v k, preserves Rel (alter_reader (Reader.set_activeBanUntil v) k).
Hypothesis set_returned_ok : ∀ v k, preserves Rel (alter_loan (Loan.set_returned v) k).
Hypothesis newReleaseBorrowed_ok : ∀ f, preserves Rel (modify_newReleaseBorrowed f).
Hypothesis notify_ok :
  ∀ b, preserves Rel (notify_available b email_of_reader title_of_book).

Lemma preserves_close_loan loanId rid when release :
  preserves Rel release → preserves Rel (close_loan loanId rid when release).
Proof.
  intros Hrel. unfold close_loan.
  apply preserves_bind; [apply set_returned_ok|]. intros _.
  apply preserves_bind; [apply preserves_lookup_loan|]. intros L.
  apply preserves_bind.
  - destruct (0 <? Loan.late_days L); [|apply preserves_ret].
    apply preserves_bind; [apply preserves_add_days|]. intros ban.
    apply set_activeBanUntil_ok.
  - intros _. apply preserves_bind; [exact Hrel|]. intros _.
    apply (set_activeLoanIds_ok
             (λ R, filter (λ x, x ≠ loanId) (Reader.activeLoanIds R))).
Qed.

Lemma preserves_borrow_copy copyId readerId today :
  preserves Rel (borrow_copy copyId readerId today).
Proof.
  unfold borrow_copy. apply preserves_bind; [by apply preserves_same_state|]. intros d.
  destruct (copies d !! copyId) as [c|]; [|apply preserves_raise].
  destruct (readers d !! readerId) as [r|]; [|apply preserves_raise].
  destruct (negb _); [apply preserves_raise|].
  destruct (negb _); [apply preserves_raise|].
  apply preserves_bind; [apply preserves_add_days|]. intros due.
  apply preserves_bind; [apply set_loan_ok|]. intros _.
  apply preserves_bind; [apply set_status_ok|]. intros _.
  apply preserves_bind; [|intros _; apply preserves_ret].
  apply (set_activeLoanIds_ok (λ r, (Reader.activeLoanIds r ++ [next_loan_id d])%list)).
Qed.

Lemma preserves_borrow_original bookId readerId today :
  preserves Rel (borrow_original_new_release bookId readerId today).
Proof.
  unfold borrow_original_new_release.
  apply preserves_bind; [by apply preserves_same_state|]. intros d.
  destruct (books d !! bookId) as [b|]; [|apply preserves_raise].
  destruct (readers d !! readerId) as [r|]; [|apply preserves_raise].
  destruct (negb _); [apply preserves_raise|].
  destruct (negb _); [apply preserves_raise|].
  destruct (bool_decide _); [apply preserves_raise|].
  apply preserves_bind; [apply preserves_add_days|]. intros due.
  apply preserves_bind; [apply set_loan_ok|]. intros _.
  apply preserves_bind; [apply newReleaseBorrowed_ok|]. intros _.
  apply preserves_bind; [|intros _; apply preserves_ret].
  apply (set_activeLoanIds_ok (λ r, (Reader.activeLoanIds r ++ [next_loan_id d])%list)).
Qed.

Lemma preserves_return_copy copyId when : preserves Rel (return_copy copyId when).
Proof.
  unfold return_copy. apply preserves_bind; [by apply preserves_same_state|]. intros d.
  destruct (copies d !! copyId) as [c|]; [|apply preserves_raise].
  destruct (negb _); [apply preserves_raise|].
  destruct (dict_find _ _) as [loanId|]; [|apply preserves_raise].
  destruct (String.eqb loanId ""); [apply preserves_raise|].
  apply preserves_bind; [apply preserves_lookup_loan|]. intros L.
  apply preserves_bind; [apply preserves_lookup_reader|]. intros _.
  apply preserves_bind; [|intros _; apply notify_ok].
  apply preserves_close_loan, set_status_ok.
Qed.

Lemma preserves_return_original bookId readerId when :
  preserves Rel (return_original_new_release bookId readerId when).
Proof.
  unfold return_original_new_release.
  apply preserves_bind; [by apply preserves_same_state|]. intros d.
  do 3 (destruct (bool_decide _); [apply preserves_raise|]).
  destruct (dict_find _ _) as [loanId|]; [|apply preserves_raise].
  destruct (String.eqb loanId ""); [apply preserves_raise|].
  apply preserves_bind; [apply preserves_lookup_loan|]. intros L.
  apply preserves_bind; [apply preserves_lookup_reader|]. intros _.
  apply preserves_bind; [|intros _; apply notify_ok].
  apply preserves_close_loan, newReleaseBorrowed_ok.
Qed.

Lemma preserves_run_op op : preserves Rel (run_op op).
Proof.
  destruct op; simpl; (apply preserves_bind; [|intros ?; apply preserves_ret]).
  - apply preserves_borrow_copy.
  - apply preserves_borrow_original.
  - apply preserves_return_copy.
  - apply preserves_return_original.
Qed.

End Preserves.

Lemma preserves_after (Rel : World → World → Prop) `{!Reflexive Rel, !Transitive Rel} :
  (∀ op, preserves Rel (run_op op)) → ∀ ops w, Rel w (after ops w).
Proof.
  intros Hop ops. induction ops as [|op ops IH]; intros w; simpl; [done|].
  etrans; [apply (Hop op)|apply IH].
Qed.

#[local] Instance op_frame_refl : Reflexive op_frame.
Proof. intros w. by split_and!. Qed.

#[local] Instance op_frame_trans : Transitive op_frame.
Proof.
  intros w1 w2 w3 (Ha & Hb & Hc & Hr & Hl & Ho) (Ha' & Hb' & Hc' & Hr' & Hl' & Ho').
  split_and!.
  - by rewrite Ha'.
  - by rewrite Hb'.
  - intros k. by rewrite Hc'.
  - intros k. by rewrite Hr'.
  - by etrans.
  - by etrans.
Qed.

#[local] Instance quiet_refl : Reflexive quiet.
Proof. intros w. by split. Qed.

#[local] Instance quiet_trans : Transitive quiet.
Proof.
  intros w1 w2 w3 [Ha Ho] [Ha' Ho']. split; [by rewrite Ha'|].
  intros H. rewrite Ho' by (by rewrite Ha). by apply Ho.
Qed.

Lemma dict_set_keys_prefix {V} (k : string) (v : V) (d : list (string * V)) :
  d.*1 `prefix_of` (dict_set k v d).*1.
Proof.
  induction d as [|[k0 v0] d IH]; csimpl; [apply prefix_nil|].
  destruct (String.eqb_spec k k0) as [->|]; csimpl; [done|by apply prefix_cons].
Qed.

Lemma send_loop_outbox_prefix (ce : Callback) g title l w :
  outbox w `prefix_of`
  outbox (state_of (for_each l (λ rid, email ← call ce rid;
                                  send_email g email ("Disponible: " +:+ title)
                                             "Ya puedes solicitarlo") w)).
Proof.
  revert w. induction l as [|rid l IH]; intros w; simpl; [done|].
  rewrite !bind_unfold. unfold call.
  destruct (ce rid (db w)) as [e|email]; simpl; [done|].
  etrans; [|apply IH]. simpl. by apply prefix_app_r.
Qed.

Lemma notify_available_outbox_prefix bookId ce ct w :
  outbox w `prefix_of` outbox (state_of (notify_available bookId ce ct w)).
Proof.
  unfold notify_available. rewrite bind_unfold. cbn.
  destruct (gateway (alert w)) as [g|]; [|done].
  rewrite bind_unfold. unfold call. destruct (ct bookId (db w)); simpl; [done|].
  apply send_loop_outbox_prefix.
Qed.

Lemma notify_available_quiet bookId ce ct w :
  gateway (alert w) = None ∨ subs (alert w) = ∅ →
  outbox (state_of (notify_available bookId ce ct w)) = outbox w.
Proof.
  unfold notify_available. rewrite bind_unfold. cbn. intros [Hg | Hs].
  - by rewrite Hg.
  - destruct (gateway (alert w)) as [g|]; [|done].
    rewrite bind_unfold. unfold call. destruct (ct bookId (db w)); simpl; [done|].
    rewrite Hs, lookup_empty. simpl. by rewrite elements_empty.
Qed.

Lemma op_frame_run_op op : preserves op_frame (run_op op).
Proof.
  apply (preserves_run_op op_frame).
  - intros k L w. split_and!; try done. cbn. apply dict_set_keys_prefix.
  - intros s k w. split_and!; try done. intros k'. cbn. rewrite lookup_alter.
    case_decide as Hk; [subst k'|done]. by destruct (copies (db w) !! k).
  - intros g k w. split_and!; try done. intros k'. cbn. rewrite lookup_alter.
    case_decide as Hk; [subst k'|done]. by destruct (readers (db w) !! k).
  - intros v k w. split_and!; try done. intros k'. cbn. rewrite lookup_alter.
    case_decide as Hk; [subst k'|done]. by destruct (readers (db w) !! k).
  - intros v k w. split_and!; try done. cbn. by rewrite dict_alter_keys.
  - intros f w. by split_and!.
  - intros b w. destruct (notify_available_frame b email_of_reader title_of_book w)
      as [Hdb Hal].
    split_and!; rewrite ?Hdb; try done. apply notify_available_outbox_prefix.
Qed.

Lemma quiet_run_op op : preserves quiet (run_op op).
Proof.
  assert (∀ f, preserves quiet (modify_db f)) as Hmod by (intros f w; by split).
  apply (preserves_run_op quiet); try (intros; apply Hmod).
  intros b w. split.
  - by destruct (notify_available_frame b email_of_reader title_of_book w).
  - apply notify_available_quiet.
Qed.


(** X7. As long as no gateway is configured, or nobody is subscribed to
    anything, no sequence of operations of the service sends a message,
    whether the operations return or raise. *)
Theorem nothing_sent_when_quiet (ops : list Op) (w : World) :
  gateway (alert w) = None ∨ subs (alert w) = ∅ →
  outbox (after ops w) = outbox w.
Proof.
  intros Hq. destruct (preserves_after quiet quiet_run_op ops w) as [_ Hout]. by apply Hout.
Qed.

Lemma nothing_sent_when_quiet_witness :
  outbox (after [BorrowCopy "C1" "R1" d_2025_10_01; ReturnCopy "C1" (d_2025_10_01 + 1)]
                (state_of (set_gateway (Some ConsoleEmailGateway) seed))) = [].
Proof.
  apply (nothing_sent_when_quiet
           [BorrowCopy "C1" "R1" d_2025_10_01; ReturnCopy "C1" (d_2025_10_01 + 1)]
           (state_of (set_gateway (Some ConsoleEmailGateway) seed))).
  right. reflexivity.
Defined.

(** X8. [reset()] forgets every subscription and the gateway and touches
    nothing else, so that whatever gateway is set next, the service sends
    nothing until somebody subscribes again; [set_gateway(None)] keeps the
    subscriptions and silences the service all the same. *)
Theorem reset_and_disable (w : World) (g : option NotificationGateway) (ops : list Op) :
  reset w = Ok tt (mkWorld (db w) fresh_alert (outbox w)) ∧
  outbox (after ops (state_of ((reset ;; set_gateway g) w))) = outbox w ∧
  subs (alert (state_of (set_gateway None w))) = subs (alert w) ∧
  outbox (after ops (state_of (set_gateway None w))) = outbox w.
Proof.
  split_and!; try done.
  - destruct (preserves_after quiet quiet_run_op ops
                (state_of ((reset ;; set_gateway g) w))) as [_ Hout].
    rewrite Hout; [done | by right].
  - destruct (preserves_after quiet quiet_run_op ops
                (state_of (set_gateway None w))) as [_ Hout].
    rewrite Hout; [done | by left].
Qed.

(** ** The notices of a return *)

Lemma notify_available_store_Ok bookId w0 w' :
  notify_available bookId email_of_reader title_of_book w0 = Ok tt w' →
  availability_notices bookId w0 w' ∧ db w' = db w0 ∧ alert w' = alert w0.
Proof.
  intros H. destruct (notify_available_Ok_frame _ _ _ _ _ H) as [Hdb Hal].
  split; [|done]. unfold availability_notices.
  destruct (gateway (alert w0)) as [g|] eqn:Hg.
  - rewrite (notify_available_gateway _ _ g) in H by done.
    rewrite bind_unfold in H. unfold call, title_of_book in H.
    destruct (books (db w0) !! bookId) as [B|]; [|discriminate].
    apply send_loop_Ok_inv in H as (emails & Hall & ->).
    exists B, (elements (default ∅ (subs (alert w0) !! bookId))), emails.
    split_and!; [done|apply NoDup_elements|intros rid; apply elem_of_elements| |done].
    eapply Forall2_impl; [exact Hall|]. intros rid e. simpl. unfold email_of_reader.
    destruct (readers (db w0) !! rid); [|discriminate]. by intros [= <-].
  - unfold notify_available in H. rewrite bind_unfold in H. cbn in H. rewrite Hg in H.
    by injection H as <-.
Qed.

Lemma closed_reader_email_lookup rid loanId due when R (m : gmap string Reader.t) rid' :
  m !! rid = Some R →
  Reader.email <$> <[rid := closed_reader loanId due when R]> m !! rid' =
  Reader.email <$> m !! rid'.
Proof.
  intros HR. rewrite lookup_insert. case_decide as Hk; [subst rid'|done]. by rewrite HR.
Qed.

Lemma availability_notices_closed b w w' d' rid loanId due when R :
  readers (db w) !! rid = Some R →
  books d' = books (db w) →
  readers d' = <[rid := closed_reader loanId due when R]> (readers (db w)) →
  availability_notices b (mkWorld d' (alert w) (outbox w)) w' →
  availability_notices b w w'.
Proof.
  intros HR Hb Hr. unfold availability_notices. cbn.
  destruct (gateway (alert w)); [|done].
  intros (B & order & emails & HB & Hnd & Hin & Hall & Hout).
  exists B, order, emails. rewrite <-Hb.
  split_and!; try done.
  eapply Forall2_impl; [exact Hall|]. intros rid' e. simpl.
  by rewrite Hr, (closed_reader_email_lookup _ _ _ _ _ _ _ HR).
Qed.

(** X9. A successful return tells the subscribers of the returned book, and
    only them: without a gateway nothing is sent; with one, the messages sent
    are one notice per subscriber of the book of the closed loan
    ([return_copy]) or of [bookId] ([return_original_new_release]), in some
    order of the subscribers, carrying the title the store holds for the book
    and addressed to the email the store holds for the reader. *)
Theorem return_notifies_subscribers :
  (∀ copyId when w w',
     return_copy copyId when w = Ok tt w' →
     ∃ loanId L,
       dict_find (open_loan_of_copy copyId) (loans (db w)) = Some loanId ∧
       dict_get loanId (loans (db w)) = Some L ∧
       availability_notices (Loan.bookId L) w w') ∧
  (∀ bookId readerId when w w',
     return_original_new_release bookId readerId when w = Ok tt w' →
     availability_notices bookId w w').
Proof.
  split.
  - intros copyId when w w'. unfold return_copy. rewrite bind_unfold. cbn.
    destruct (copies (db w) !! copyId) as [c|] eqn:Hc; [|discriminate].
    destruct (negb _) eqn:Hst; [discriminate|].
    destruct (dict_find _ _) as [loanId|] eqn:Hfind; [|discriminate].
    destruct (String.eqb_spec loanId "") as [|Hne]; [discriminate|].
    intros H.
    apply bind_Ok_inv in H as (L & w1 & [-> HL]%lookup_loan_Ok & H).
    apply bind_Ok_inv in H as (R & w2 & [-> HR]%lookup_reader_Ok & H).
    apply bind_Ok_inv in H as ([] & w3 & Hclose & H).
    apply (close_loan_Ok _ _ _ (alter (Copy.set_status CopyStatus.IN_LIBRARY) copyId)
             (λ s, s) _ _ L R HL HR) in Hclose as ->.
    apply notify_available_store_Ok in H as [H _].
    exists loanId, L. do 2 (split; [done|]).
    eapply availability_notices_closed; [exact HR| | |exact H]; reflexivity.
  - intros bookId readerId when w w'.
    unfold return_original_new_release. rewrite bind_unfold. cbn.
    do 3 (destruct (bool_decide _); [discriminate|]).
    destruct (dict_find _ _) as [loanId|] eqn:Hfind; [|discriminate].
    destruct (String.eqb_spec loanId "") as [|Hne]; [discriminate|].
    intros H.
    apply bind_Ok_inv in H as (L & w1 & [-> HL]%lookup_loan_Ok & H).
    apply bind_Ok_inv in H as (R & w2 & [-> HR]%lookup_reader_Ok & H).
    apply bind_Ok_inv in H as ([] & w3 & Hclose & H).
    apply (close_loan_Ok _ _ _ (λ c, c) (λ s, s ∖ {[bookId]}) _ _ L R HL HR)
      in Hclose as ->.
    apply notify_available_store_Ok in H as [H _].
    eapply availability_notices_closed; [exact HR| | |exact H]; reflexivity.
Qed.

(** Bob and Alice are subscribed to B1, the gateway is set, and R1 holds C1. *)
Lemma return_notifies_subscribers_witness :
  ∃ loanId L,
    dict_find (open_loan_of_copy "C1")
      (loans (db (after [BorrowCopy "C1" "R1" d_2025_10_01] subscribed_world))) =
      Some loanId ∧
    dict_get loanId
      (loans (db (after [BorrowCopy "C1" "R1" d_2025_10_01] subscribed_world))) = Some L ∧
    availability_notices (Loan.bookId L)
      (after [BorrowCopy "C1" "R1" d_2025_10_01] subscribed_world)
      (after [BorrowCopy "C1" "R1" d_2025_10_01; ReturnCopy "C1" (d_2025_10_01 + 3)]
             subscribed_world).
Proof.
  apply (proj1 return_notifies_subscribers "C1" (d_2025_10_01 + 3)
           (after [BorrowCopy "C1" "R1" d_2025_10_01] subscribed_world)).
  vm_compute. reflexivity.
Defined.

(** ** How a return can fail *)

Lemma lookup_loan_Raise k w e w' :
  lookup_loan k w = Raise e w' → e = KeyError k ∧ w' = w.
Proof.
  unfold lookup_loan. rewrite bind_unfold. cbn.
  destruct (dict_get k _); [discriminate|]. by intros [= <- <-].
Qed.

Lemma lookup_reader_Raise k w e w' :
  lookup_reader k w = Raise e w' → e = KeyError k ∧ w' = w.
Proof.
  unfold lookup_reader. rewrite bind_unfold. cbn.
  destruct (_ !! k); [discriminate|]. by intros [= <- <-].
Qed.

Lemma add_days_Raise d n w e w' :
  add_days d n w = Raise e w' →
  e = OverflowError ∧ w' = w ∧ ¬ (MINORDINAL ≤ d + n ≤ MAXORDINAL).
Proof.
  intros H. split_and!.
  - unfold add_days in H. destruct (_ && _); [discriminate|]. by injection H as <- _.
  - unfold add_days in H. destruct (_ && _); [discriminate|]. by injection H as _ <-.
  - intros Hrange. by rewrite add_days_in_range in H.
Qed.

Lemma close_loan_Raise loanId rid when gc gn w e w' L :
  dict_get loanId (loans (db w)) = Some L →
  close_loan loanId rid when
    (modify_db (λ d, mkDb (books d) (gc (copies d)) (readers d) (loans d)
                          (gn (newReleaseBorrowed d)))) w = Raise e w' →
  e = OverflowError ∧
  Loan.due L < when ∧
  ¬ (MINORDINAL ≤ when + 2 * (when - Loan.due L) ≤ MAXORDINAL) ∧
  w' = mkWorld
         (mkDb (books (db w)) (copies (db w)) (readers (db w))
               (dict_alter (Loan.set_returned (Some when)) loanId (loans (db w)))
               (newReleaseBorrowed (db w)))
         (alert w) (outbox w).
Proof.
  intros HL. unfold close_loan. rewrite bind_unfold. cbn.
  unfold lookup_loan. rewrite !bind_unfold. cbn.
  rewrite dict_get_alter, String.eqb_refl, HL. cbn.
  unfold Loan.late_days. cbn.
  destruct (Z.ltb_spec (Loan.due L) when) as [Hlate|Hlate].
  - destruct (Z.ltb_spec 0 (when - Loan.due L)); [|lia].
    do 2 rewrite bind_unfold.
    destruct (add_days when (2 * (when - Loan.due L)) _) as [ban w1|e1 w1] eqn:Hadd.
    + apply add_days_Ok in Hadd as (-> & -> & _). discriminate.
    + apply add_days_Raise in Hadd as (-> & -> & Hrange). by intros [= <- <-].
  - discriminate.
Qed.

Lemma send_loop_store_Raise g title l w e w' :
  for_each l (λ rid, email ← call email_of_reader rid;
                send_email g email ("Disponible: " +:+ title) "Ya puedes solicitarlo") w
  = Raise e w' →
  ∃ k, e = KeyError k.
Proof.
  revert w. induction l as [|rid l IH]; intros w; simpl; [discriminate|].
  rewrite !bind_unfold. unfold call, email_of_reader.
  destruct (readers (db w) !! rid); simpl; [apply IH|]. intros [= <- _]. eauto.
Qed.

Lemma notify_available_store_Raise bookId w0 e w' :
  notify_available bookId email_of_reader title_of_book w0 = Raise e w' →
  (∃ k, e = KeyError k) ∧ gateway (alert w0) ≠ None ∧
  db w' = db w0 ∧ alert w' = alert w0 ∧ outbox w0 `prefix_of` outbox w'.
Proof.
  intros H.
  pose proof (notify_available_frame bookId email_of_reader title_of_book w0) as [Hdb Hal].
  pose proof (notify_available_outbox_prefix bookId email_of_reader title_of_book w0) as Hout.
  rewrite H in Hdb, Hal, Hout. simpl in *. split_and!; try done.
  - unfold notify_available in H. rewrite bind_unfold in H. cbn in H.
    destruct (gateway (alert w0)) as [g|]; [|discriminate].
    rewrite bind_unfold in H. unfold call, title_of_book in H.
    destruct (books (db w0) !! bookId); simpl in H.
    + by apply send_loop_store_Raise in H.
    + injection H as <- _. eauto.
  - intros Hg. unfold notify_available in H. rewrite bind_unfold in H. cbn in H.
    by rewrite Hg in H.
Qed.

Lemma return_copy_Raise (copyId : string) (when : date) (w : World) (e : Exn)
    (w' : World) :
  return_copy copyId when w = Raise e w' →
  (w' = w ∧ ((∃ f, e = ValueError f) ∨ (∃ k, e = KeyError k))) ∨
  (∃ c loanId L R,
     copies (db w) !! copyId = Some c ∧
     dict_find (open_loan_of_copy copyId) (loans (db w)) = Some loanId ∧
     dict_get loanId (loans (db w)) = Some L ∧
     readers (db w) !! Loan.readerId L = Some R ∧
     ((e = OverflowError ∧
       Loan.due L < when ∧
       ¬ (MINORDINAL ≤ when + 2 * (when - Loan.due L) ≤ MAXORDINAL) ∧
       w' = mkWorld
              (mkDb (books (db w)) (copies (db w)) (readers (db w))
                    (dict_alter (Loan.set_returned (Some when)) loanId (loans (db w)))
                    (newReleaseBorrowed (db w)))
              (alert w) (outbox w)) ∨
      ((∃ k, e = KeyError k) ∧
       gateway (alert w) ≠ None ∧
       db w' =
         mkDb (books (db w))
              (<[copyId := Copy.set_status CopyStatus.IN_LIBRARY c]> (copies (db w)))
              (<[Loan.readerId L := closed_reader loanId (Loan.due L) when R]>
                 (readers (db w)))
              (dict_alter (Loan.set_returned (Some when)) loanId (loans (db w)))
              (newReleaseBorrowed (db w)) ∧
       alert w' = alert w ∧
       outbox w `prefix_of` outbox w'))).
Proof.
  unfold return_copy. rewrite bind_unfold. cbn.
  destruct (copies (db w) !! copyId) as [c|] eqn:Hc;
    [|intros [= <- <-]; left; eauto].
  destruct (negb _); [intros [= <- <-]; left; eauto|].
  destruct (dict_find _ _) as [loanId|] eqn:Hfind; [|intros [= <- <-]; left; eauto].
  destruct (String.eqb loanId ""); [intros [= <- <-]; left; eauto|].
  intros H.
  apply bind_Raise_inv in H as [[-> ->]%lookup_loan_Raise | (L & w1 & [-> HL]%lookup_loan_Ok & H)];
    [left; eauto|].
  apply bind_Raise_inv in H
    as [[-> ->]%lookup_reader_Raise | (R & w2 & [-> HR]%lookup_reader_Ok & H)];
    [left; eauto|].
  right. exists c, loanId, L, R. do 4 (split; [done|]).
  apply bind_Raise_inv in H as [H | ([] & w3 & Hclose & H)].
  - left. by apply (close_loan_Raise _ _ _ (alter (Copy.set_status CopyStatus.IN_LIBRARY) copyId)
                      (λ s, s) _ _ _ L HL) in H.
  - right.
    apply (close_loan_Ok _ _ _ (alter (Copy.set_status CopyStatus.IN_LIBRARY) copyId) (λ s, s)
             _ _ L R HL HR) in Hclose as ->.
    apply notify_available_store_Raise in H as (Hk & Hg & Hdb & Hal & Hout).
    cbn in *. split_and!; try done. by rewrite Hdb, (alter_alt_Some _ _ _ _ Hc).
Qed.

(** X10. With no gateway, or with the console gateway, which accepts every
    message, a [return_copy] that raises does so in one of four ways.  A named
    fault, or a [KeyError] for a borrower the store does not hold, leaves the
    state as it was.  An [OverflowError] (the ban would end after 9999-12-31)
    comes after the loan, and only the loan, is marked returned: the copy is
    still on loan and the reader still holds the loan id.  A [KeyError] of a
    lookup for the notices comes, with a gateway set, once the return is
    complete in the store: the failure of the notification does not undo the
    return.  (A gateway that raises adds its own exception to the list.) *)
Theorem return_copy_failures (copyId : string) (when : date) (w : World) (e : Exn)
    (w' : World) :
  gateway (alert w) = None ∨ gateway (alert w) = Some ConsoleEmailGateway →
  return_copy copyId when w = Raise e w' →
  (w' = w ∧ ((∃ f, e = ValueError f) ∨ (∃ k, e = KeyError k))) ∨
  (∃ c loanId L R,
     copies (db w) !! copyId = Some c ∧
     dict_find (open_loan_of_copy copyId) (loans (db w)) = Some loanId ∧
     dict_get loanId (loans (db w)) = Some L ∧
     readers (db w) !! Loan.readerId L = Some R ∧
     ((e = OverflowError ∧
       Loan.due L < when ∧
       ¬ (MINORDINAL ≤ when + 2 * (when - Loan.due L) ≤ MAXORDINAL) ∧
       w' = mkWorld
              (mkDb (books (db w)) (copies (db w)) (readers (db w))
                    (dict_alter (Loan.set_returned (Some when)) loanId (loans (db w)))
                    (newReleaseBorrowed (db w)))
              (alert w) (outbox w)) ∨
      ((∃ k, e = KeyError k) ∧
       gateway (alert w) = Some ConsoleEmailGateway ∧
       db w' =
         mkDb (books (db w))
              (<[copyId := Copy.set_status CopyStatus.IN_LIBRARY c]> (copies (db w)))
              (<[Loan.readerId L := closed_reader loanId (Loan.due L) when R]>
                 (readers (db w)))
              (dict_alter (Loan.set_returned (Some when)) loanId (loans (db w)))
              (newReleaseBorrowed (db w)) ∧
       alert w' = alert w ∧
       outbox w `prefix_of` outbox w'))).
Proof.
  intros Hgw Hraise.
  destruct (return_copy_Raise _ _ _ _ _ Hraise)
    as [Hsame | (c & loanId & L & R & Hc & Hfind & HL & HR & Hcases)]; [by left|].
  right. exists c, loanId, L, R. do 4 (split; [done|]).
  destruct Hcases as [Hoverflow | (Hk & Hg & Hdb & Hal & Hout)]; [by left|].
  right. split_and!; try done. by destruct Hgw.
Qed.

Lemma return_copy_failures_witness :
  (state_of (return_copy "C9" (d_2025_10_01 + 30) orphan_copy_world) = orphan_copy_world ∧
   ((∃ f, KeyError "B9" = ValueError f) ∨ (∃ k, KeyError "B9" = KeyError k))) ∨
  (∃ c loanId L R,
     copies (db orphan_copy_world) !! "C9" = Some c ∧
     dict_find (open_loan_of_copy "C9") (loans (db orphan_copy_world)) = Some loanId ∧
     dict_get loanId (loans (db orphan_copy_world)) = Some L ∧
     readers (db orphan_copy_world) !! Loan.readerId L = Some R ∧
     ((KeyError "B9" = OverflowError ∧
       Loan.due L < d_2025_10_01 + 30 ∧
       ¬ (MINORDINAL ≤ d_2025_10_01 + 30 + 2 * (d_2025_10_01 + 30 - Loan.due L)
          ≤ MAXORDINAL) ∧
       state_of (return_copy "C9" (d_2025_10_01 + 30) orphan_copy_world) =
       mkWorld
         (mkDb (books (db orphan_copy_world)) (copies (db orphan_copy_world))
               (readers (db orphan_copy_world))
               (dict_alter (Loan.set_returned (Some (d_2025_10_01 + 30))) loanId
                  (loans (db orphan_copy_world)))
               (newReleaseBorrowed (db orphan_copy_world)))
         (alert orphan_copy_world) (outbox orphan_copy_world)) ∨
      ((∃ k, KeyError "B9" = KeyError k) ∧
       gateway (alert orphan_copy_world) = Some ConsoleEmailGateway ∧
       db (state_of (return_copy "C9" (d_2025_10_01 + 30) orphan_copy_world)) =
         mkDb (books (db orphan_copy_world))
              (<["C9" := Copy.set_status CopyStatus.IN_LIBRARY c]>
                 (copies (db orphan_copy_world)))
              (<[Loan.readerId L :=
                   closed_reader loanId (Loan.due L) (d_2025_10_01 + 30) R]>
                 (readers (db orphan_copy_world)))
              (dict_alter (Loan.set_returned (Some (d_2025_10_01 + 30))) loanId
                 (loans (db orphan_copy_world)))
              (newReleaseBorrowed (db orphan_copy_world)) ∧
       alert (state_of (return_copy "C9" (d_2025_10_01 + 30) orphan_copy_world)) =
         alert orphan_copy_world ∧
       outbox orphan_copy_world `prefix_of`
         outbox (state_of (return_copy "C9" (d_2025_10_01 + 30) orphan_copy_world))))).
Proof.
  apply (return_copy_failures "C9" (d_2025_10_01 + 30) orphan_copy_world (KeyError "B9")).
  - right. reflexivity.
  - vm_compute. reflexivity.
Defined.

(** ** Operations in sequence *)

(** X11. An operation cannot be repeated.  After a successful [return_copy],
    a second return of the copy raises COPY_NOT_LOANED.  After a successful
    [return_original_new_release], a second return of the original by any
    reader of the store raises ORIGINAL_NOT_BORROWED.  After a successful
    [borrow_copy], no reader can borrow the copy: the attempt raises
    READER_NOT_FOUND, BORROW_FORBIDDEN or COPY_NOT_AVAILABLE, according to the
    reader.  Each of these faults leaves the state as it was. *)
Theorem no_operation_twice :
  (∀ copyId when w w' when2,
     return_copy copyId when w = Ok tt w' →
     return_copy copyId when2 w' = Raise (ValueError COPY_NOT_LOANED) w') ∧
  (∀ bookId readerId when w w' readerId2 when2,
     return_original_new_release bookId readerId when w = Ok tt w' →
     is_Some (readers (db w') !! readerId2) →
     return_original_new_release bookId readerId2 when2 w' =
     Raise (ValueError ORIGINAL_NOT_BORROWED) w') ∧
  (∀ copyId readerId today w loanId w' readerId2 today2,
     borrow_copy copyId readerId today w = Ok loanId w' →
     borrow_copy copyId readerId2 today2 w' =
     Raise (ValueError
              match readers (db w') !! readerId2 with
              | None => READER_NOT_FOUND
              | Some r => if Reader.can_borrow r today2 then COPY_NOT_AVAILABLE
                          else BORROW_FORBIDDEN
              end) w').
Proof.
  split_and!.
  - intros copyId when w w' when2
      (c & loanId & L & R & _ & _ & _ & _ & _ & _ & Hdb & _)%return_copy_Ok.
    unfold return_copy. rewrite bind_unfold. cbn. rewrite Hdb. cbn.
    by rewrite lookup_insert_eq.
  - intros bookId readerId when w w' readerId2 when2
      (loanId & L & R & Hb & _ & _ & _ & _ & _ & Hdb & _)%return_original_Ok Hr2.
    unfold return_original_new_release. rewrite bind_unfold. cbn.
    rewrite bool_decide_eq_false_2.
    2:{ intros Hnot. apply Hnot, elem_of_dom. by rewrite Hdb. }
    rewrite bool_decide_eq_false_2 by (intros Hnot; apply Hnot; by apply elem_of_dom).
    rewrite bool_decide_eq_true_2; [done|].
    rewrite Hdb. cbn. apply not_elem_of_difference. right. by apply elem_of_singleton.
  - intros copyId readerId today w loanId w' readerId2 today2
      (c & r & _ & _ & _ & _ & _ & _ & ->)%borrow_copy_Ok.
    unfold borrow_copy. rewrite bind_unfold. cbn. rewrite lookup_insert_eq.
    destruct (_ !! readerId2) as [r2|]; [|done].
    by destruct (Reader.can_borrow r2 today2).
Qed.

Lemma no_operation_twice_witness :
  borrow_copy "C1" "R2" (d_2025_10_01 + 1) c1_on_loan =
  Raise (ValueError
           match readers (db c1_on_loan) !! "R2" with
           | None => READER_NOT_FOUND
           | Some r => if Reader.can_borrow r (d_2025_10_01 + 1) then COPY_NOT_AVAILABLE
                       else BORROW_FORBIDDEN
           end) c1_on_loan.
Proof.
  apply (proj2 (proj2 no_operation_twice) "C1" "R1" d_2025_10_01 seed "L1").
  vm_compute. reflexivity.
Defined.

(** X12. A return that is [k > 0] days late bans the borrower for the [2 * k]
    days that follow the return, and for the day of the return: until then
    every attempt of that reader to borrow a copy of the store raises
    BORROW_FORBIDDEN, and the day after the ban ends the ban no longer counts
    ([can_borrow] is then a matter of holding fewer than 3 loans). *)
Theorem late_return_ban_window (copyId : string) (when : date) (w w' : World) :
  return_copy copyId when w = Ok tt w' →
  ∃ loanId L R',
    dict_find (open_loan_of_copy copyId) (loans (db w)) = Some loanId ∧
    dict_get loanId (loans (db w)) = Some L ∧
    readers (db w') !! Loan.readerId L = Some R' ∧
    (Loan.due L < when →
     (∀ today copyId2,
        today ≤ when + 2 * (when - Loan.due L) →
        is_Some (copies (db w') !! copyId2) →
        borrow_copy copyId2 (Loan.readerId L) today w' =
        Raise (ValueError BORROW_FORBIDDEN) w') ∧
     (∀ today,
        when + 2 * (when - Loan.due L) < today →
        Reader.can_borrow R' today = (length (Reader.activeLoanIds R') <? 3)%nat)).
Proof.
  intros (c & loanId & L & R & _ & _ & Hfind & _ & HL & HR & Hdb & _)%return_copy_Ok.
  exists loanId, L, (closed_reader loanId (Loan.due L) when R).
  split_and!; try done.
  { rewrite Hdb. cbn. apply lookup_insert_eq. }
  intros Hlate%Z.ltb_lt. split.
  - intros today copyId2 Htoday [c2 Hc2].
    unfold borrow_copy. rewrite bind_unfold. cbn. rewrite Hc2, Hdb. cbn.
    rewrite lookup_insert_eq. unfold Reader.can_borrow, closed_reader. cbn.
    rewrite Hlate. by apply Z.leb_le in Htoday as ->.
  - intros today Htoday. unfold Reader.can_borrow, closed_reader. cbn.
    rewrite Hlate. by apply Z.leb_gt in Htoday as ->.
Qed.

Lemma late_return_ban_window_witness :
  ∃ loanId L R',
    dict_find (open_loan_of_copy "C1") (loans (db c1_on_loan)) = Some loanId ∧
    dict_get loanId (loans (db c1_on_loan)) = Some L ∧
    readers (db (after [ReturnCopy "C1" (d_2025_10_01 + 35)] c1_on_loan))
      !! Loan.readerId L = Some R' ∧
    (Loan.due L < d_2025_10_01 + 35 →
     (∀ today copyId2,
        today ≤ d_2025_10_01 + 35 + 2 * (d_2025_10_01 + 35 - Loan.due L) →
        is_Some (copies (db (after [ReturnCopy "C1" (d_2025_10_01 + 35)] c1_on_loan))
                   !! copyId2) →
        borrow_copy copyId2 (Loan.readerId L) today
          (after [ReturnCopy "C1" (d_2025_10_01 + 35)] c1_on_loan) =
        Raise (ValueError BORROW_FORBIDDEN)
          (after [ReturnCopy "C1" (d_2025_10_01 + 35)] c1_on_loan)) ∧
     (∀ today,
        d_2025_10_01 + 35 + 2 * (d_2025_10_01 + 35 - Loan.due L) < today →
        Reader.can_borrow R' today = (length (Reader.activeLoanIds R') <? 3)%nat)).
Proof.
  apply (late_return_ban_window "C1" (d_2025_10_01 + 35) c1_on_loan).
  vm_compute. reflexivity.
Defined.

(** ** The store the service keeps *)

Lemma generated_ids_NoDup l : generated_ids l → NoDup l.*1.
Proof.
  unfold generated_ids. intros ->. apply NoDup_fmap_2; [|apply NoDup_seq].
  intros i j Heq. cbv [String.append] in Heq. injection Heq as Heq.
  by apply (inj pretty) in Heq.
Qed.

Lemma generated_ids_alter f k l : generated_ids l → generated_ids (dict_alter f k l).
Proof. unfold generated_ids. by rewrite dict_alter_keys, dict_alter_length. Qed.

Lemma generated_ids_not_empty l : generated_ids l → "" ∉ l.*1.
Proof.
  unfold generated_ids. intros -> (i & Heq & _)%list_elem_of_fmap.
  cbv [String.append] in Heq. discriminate.
Qed.

Lemma generated_ids_set_next l L :
  generated_ids l →
  dict_set ("L" +:+ pretty (length l + 1)%nat) L l =
  (l ++ [("L" +:+ pretty (length l + 1)%nat, L)])%list.
Proof. intros Hgen. by apply dict_set_fresh, generated_ids_next_fresh. Qed.

Lemma count_loans_app p l l' :
  count_loans p (l ++ l') = (count_loans p l + count_loans p l')%nat.
Proof. induction l as [|[k L] l IH]; simpl; [done|]. rewrite IH. lia. Qed.

Lemma count_loans_alter_other p f k l L0 :
  dict_get k l = Some L0 → p L0 = p (f L0) →
  count_loans p (dict_alter f k l) = count_loans p l.
Proof.
  induction l as [|[k0 L1] l IH]; simpl; [done|].
  destruct (String.eqb k k0); simpl.
  - by intros [= ->] ->.
  - intros HL Hp. by rewrite IH.
Qed.

Lemma dict_find_app_None {V} (p : V → bool) (l : list (string * V)) k v :
  dict_find p l = None →
  dict_find p (l ++ [(k, v)]) = if p v then Some k else None.
Proof.
  induction l as [|[k0 v0] l IH]; simpl; [done|].
  destruct (p v0); [discriminate|exact IH].
Qed.

Lemma count_loans_zero_find p l : count_loans p l = 0%nat → dict_find p l = None.
Proof.
  induction l as [|[k L] l IH]; simpl; [done|].
  destruct (p L); [discriminate|exact IH].
Qed.

Lemma count_loans_pos_find p l :
  (0 < count_loans p l)%nat → is_Some (dict_find p l).
Proof.
  induction l as [|[k L] l IH]; simpl; [lia|].
  destruct (p L); [eauto|exact IH].
Qed.

Lemma dict_alter_app_fresh {V} (f : V → V) (l : list (string * V)) k v :
  k ∉ l.*1 → dict_alter f k (l ++ [(k, v)]) = (l ++ [(k, f v)])%list.
Proof.
  induction l as [|[k0 v0] l IH]; csimpl.
  - intros _. by rewrite String.eqb_refl.
  - rewrite not_elem_of_cons. intros [Hne Hnin].
    apply String.eqb_neq in Hne as ->. by rewrite IH.
Qed.

#[local] Instance loan_kept_refl : Reflexive loan_kept.
Proof. intros L. by left. Qed.

#[local] Instance loan_kept_trans : Transitive loan_kept.
Proof.
  intros L1 L2 L3 [-> | [Hopen [when ->]]] [-> | [Hopen' [when' ->]]].
  - by left.
  - right. eauto.
  - right. eauto.
  - discriminate Hopen'.
Qed.

#[local] Instance history_kept_refl : Reflexive history_kept.
Proof. intros l k L HL. exists L. by split. Qed.

#[local] Instance history_kept_trans : Transitive history_kept.
Proof.
  intros l1 l2 l3 H12 H23 k L HL.
  destruct (H12 k L HL) as (L' & HL' & Hk). destruct (H23 k L' HL') as (L'' & HL'' & Hk').
  exists L''. split; [done|by etrans].
Qed.

Lemma history_kept_set_fresh k L l : k ∉ l.*1 → history_kept l (dict_set k L l).
Proof.
  intros Hfresh%dict_get_None k' L' HL'. exists L'. split; [|done].
  rewrite dict_get_set. destruct (String.eqb_spec k k') as [->|]; [congruence|done].
Qed.

Lemma history_kept_close k when l L :
  dict_get k l = Some L → Loan.returned L = None →
  history_kept l (dict_alter (Loan.set_returned (Some when)) k l).
Proof.
  intros HL Hopen k' L' HL'. rewrite dict_get_alter.
  destruct (String.eqb_spec k k') as [<-|].
  - rewrite HL. simpl. eexists. split; [done|]. right.
    assert (L' = L) as -> by congruence. eauto.
  - exists L'. by split.
Qed.

Lemma open_loan_of_copy_inv copyId L :
  open_loan_of_copy copyId L = true → Loan.copyId L = copyId ∧ Loan.returned L = None.
Proof.
  unfold open_loan_of_copy.
  by intros [?%String.eqb_eq ?%bool_decide_eq_true]%andb_prop.
Qed.

Lemma open_original_loan_inv bookId readerId L :
  open_original_loan bookId readerId L = true →
  Loan.bookId L = bookId ∧ Loan.readerId L = readerId ∧ Loan.copyId L = "" ∧
  Loan.returned L = None.
Proof.
  unfold open_original_loan.
  by intros [[[?%String.eqb_eq ?%String.eqb_eq]%andb_prop ?%String.eqb_eq]%andb_prop
               ?%bool_decide_eq_true]%andb_prop.
Qed.

Lemma open_loan_of_copy_closed cid when L :
  open_loan_of_copy cid (Loan.set_returned (Some when) L) = false.
Proof.
  unfold open_loan_of_copy. apply andb_false_iff. right. by apply bool_decide_eq_false.
Qed.

Lemma open_loan_of_copy_other cid L :
  Loan.copyId L ≠ cid → open_loan_of_copy cid L = false.
Proof. intros Hne%String.eqb_neq. unfold open_loan_of_copy. by rewrite Hne. Qed.

Lemma copy_status_count d cid c :
  copy_loans_consistent d → copies d !! cid = Some c →
  (Copy.status c = CopyStatus.IN_LIBRARY →
   count_loans (open_loan_of_copy cid) (loans d) = 0%nat) ∧
  (Copy.status c ≠ CopyStatus.IN_LIBRARY →
   Copy.status c = CopyStatus.LOANED ∧
   count_loans (open_loan_of_copy cid) (loans d) = 1%nat).
Proof.
  intros Hco Hc. destruct (Hco cid c Hc) as [[Hst Hn] | [Hst Hn]]; rewrite Hst.
  - split; [done|]. by intros [].
  - split; [discriminate|done].
Qed.

Lemma copies_and_loans_consistent_run_op op v w w' :
  copies_and_loans_consistent (db w) →
  run_op op w = Ok v w' →
  copies_and_loans_consistent (db w').
Proof.
  intros (Hgen & Hempty & Hco) Hop.
  pose proof (generated_ids_NoDup _ Hgen) as Hnd.
  pose proof (generated_ids_next_fresh _ Hgen) as Hfresh.
  destruct op; simpl in Hop; apply bind_Ok_inv in Hop as (a & w1 & Hop & [= _ <-]).
  - apply borrow_copy_Ok in Hop as (c & r & Hc & Hr & _ & Hst & _ & -> & ->).
    assert (copyId ≠ "") as Hne by (intros ->; congruence).
    unfold copies_and_loans_consistent, next_loan_id. cbn. split_and!.
    + rewrite generated_ids_set_next by done. by apply generated_ids_snoc.
    + by rewrite lookup_insert_ne.
    + rewrite generated_ids_set_next by done. intros cid c'. cbn. rewrite lookup_insert.
      rewrite count_loans_app. simpl. case_decide as Hk.
      * subst cid. intros [= <-]. right. split; [reflexivity|].
        destruct (copy_status_count _ _ _ Hco Hc) as [Hzero _]. rewrite (Hzero Hst).
        unfold open_loan_of_copy. cbn. by rewrite String.eqb_refl.
      * intros Hc'. rewrite open_loan_of_copy_other by (cbn; congruence).
        rewrite !Nat.add_0_r. by apply Hco.
  - apply borrow_original_Ok in Hop as (b & r & _ & Hr & _ & _ & _ & _ & -> & ->).
    unfold copies_and_loans_consistent, next_loan_id. cbn. split_and!.
    + rewrite generated_ids_set_next by done. by apply generated_ids_snoc.
    + done.
    + rewrite generated_ids_set_next by done. intros cid c' Hc'. cbn in *.
      rewrite count_loans_app. simpl.
      rewrite open_loan_of_copy_other by (cbn; intros <-; congruence).
      rewrite !Nat.add_0_r. by apply Hco.
  - destruct a. apply return_copy_Ok in Hop
      as (c & loanId & L & R & Hc & Hst & Hfind & _ & HL & HR & Hdb & _).
    destruct (dict_find_get _ _ _ Hnd Hfind) as (L' & HL' & [Hcp Hopen]%open_loan_of_copy_inv).
    assert (L' = L) as -> by congruence.
    assert (copyId ≠ "") as Hne by (intros ->; congruence).
    unfold copies_and_loans_consistent. rewrite Hdb. cbn. split_and!.
    + by apply generated_ids_alter.
    + by rewrite lookup_insert_ne.
    + intros cid c'. cbn. rewrite lookup_insert. case_decide as Hk.
      * subst cid. intros [= <-]. left. split; [reflexivity|].
        destruct (copy_status_count _ _ _ Hco Hc) as [_ Hloaned].
        destruct Hloaned as [_ Hone]; [destruct Hst as [-> | ->]; discriminate|].
        pose proof (count_loans_alter_found (open_loan_of_copy copyId)
                      (open_loan_of_copy copyId) (Loan.set_returned (Some when)) loanId
                      (loans (db w)) Hnd (λ _ H, H)
                      (open_loan_of_copy_closed copyId when) Hfind) as Hcount.
        lia.
      * intros Hc'. rewrite (count_loans_alter_other _ _ _ _ L) by
          (by rewrite ?open_loan_of_copy_closed, ?open_loan_of_copy_other by congruence).
        by apply Hco.
  - destruct a. apply return_original_Ok in Hop
      as (loanId & L & R & _ & _ & Hfind & _ & HL & HR & Hdb & _).
    destruct (dict_find_get _ _ _ Hnd Hfind)
      as (L' & HL' & (_ & Hrd & Hcp & Hopen)%open_original_loan_inv).
    assert (L' = L) as -> by congruence.
    unfold copies_and_loans_consistent. rewrite Hdb. cbn. split_and!.
    + by apply generated_ids_alter.
    + done.
    + intros cid c' Hc'. cbn in *.
      rewrite (count_loans_alter_other _ _ _ _ L) by
        (by rewrite ?open_loan_of_copy_closed, ?open_loan_of_copy_other
            by (rewrite Hcp; intros <-; congruence)).
      by apply Hco.
Qed.

Lemma copies_and_loans_consistent_readers d d' :
  same_but_readers d d' → copies_and_loans_consistent d → copies_and_loans_consistent d'.
Proof.
  intros (_ & Hc & Hl & _) (Hgen & Hempty & Hco).
  unfold copies_and_loans_consistent, copy_loans_consistent. rewrite Hc, Hl. done.
Qed.

Lemma copies_and_loans_consistent_served w w' :
  copies_and_loans_consistent (db w) → served w w' → copies_and_loans_consistent (db w').
Proof.
  intros Hw Hserved. induction Hserved as [|w op v w1 w2 w' Hop Hsame _ IH]; [done|].
  apply IH. apply (copies_and_loans_consistent_readers (db w1)); [done|].
  by eapply copies_and_loans_consistent_run_op.
Qed.

Lemma history_kept_step w w' :
  generated_ids (loans (db w)) → step w w' → history_kept (loans (db w)) (loans (db w')).
Proof.
  intros Hgen [op v Hop].
  pose proof (generated_ids_NoDup _ Hgen) as Hnd.
  pose proof (generated_ids_next_fresh _ Hgen) as Hfresh.
  destruct op; simpl in Hop; apply bind_Ok_inv in Hop as (a & w1 & Hop & [= _ <-]).
  - apply borrow_copy_Ok in Hop as (c & r & _ & _ & _ & _ & _ & -> & ->). cbn.
    by apply history_kept_set_fresh.
  - apply borrow_original_Ok in Hop as (b & r & _ & _ & _ & _ & _ & _ & -> & ->). cbn.
    by apply history_kept_set_fresh.
  - destruct a. apply return_copy_Ok in Hop
      as (c & loanId & L & R & _ & _ & Hfind & _ & HL & _ & -> & _). cbn.
    destruct (dict_find_get _ _ _ Hnd Hfind) as (L' & HL' & [_ Hopen]%open_loan_of_copy_inv).
    apply (history_kept_close _ _ _ L); congruence.
  - destruct a. apply return_original_Ok in Hop
      as (loanId & L & R & _ & _ & Hfind & _ & HL & _ & -> & _). cbn.
    destruct (dict_find_get _ _ _ Hnd Hfind)
      as (L' & HL' & (_ & _ & _ & Hopen)%open_original_loan_inv).
    apply (history_kept_close _ _ _ L); congruence.
Qed.

Lemma generated_ids_step w w' :
  generated_ids (loans (db w)) → step w w' → generated_ids (loans (db w')).
Proof.
  intros Hgen [op v Hop].
  destruct op; simpl in Hop; apply bind_Ok_inv in Hop as (a & w1 & Hop & [= _ <-]).
  - apply borrow_copy_Ok in Hop as (c & r & _ & _ & _ & _ & _ & -> & ->). cbn.
    unfold next_loan_id. rewrite generated_ids_set_next by done.
    by apply generated_ids_snoc.
  - apply borrow_original_Ok in Hop as (b & r & _ & _ & _ & _ & _ & _ & -> & ->). cbn.
    unfold next_loan_id. rewrite generated_ids_set_next by done.
    by apply generated_ids_snoc.
  - destruct a. apply return_copy_Ok in Hop
      as (c & loanId & L & R & _ & _ & _ & _ & _ & _ & -> & _). cbn.
    by apply generated_ids_alter.
  - destruct a. apply return_original_Ok in Hop
      as (loanId & L & R & _ & _ & _ & _ & _ & _ & -> & _). cbn.
    by apply generated_ids_alter.
Qed.

(** X13. In a store whose loan ids are L1, L2, ... in order (an empty loans
    dictionary to begin with), every sequence of successful operations keeps
    the ids of that form, so distinct and never empty, and keeps the loans as
    an append-only record: no loan is removed or replaced, a closed loan never
    changes again, and an open loan changes only by getting its return
    date. *)
Theorem loans_append_only (w w' : World) :
  generated_ids (loans (db w)) →
  rtc step w w' →
  generated_ids (loans (db w')) ∧
  NoDup (loans (db w')).*1 ∧
  ("" ∉ (loans (db w')).*1) ∧
  (length (loans (db w)) ≤ length (loans (db w')))%nat ∧
  ∀ k L, dict_get k (loans (db w)) = Some L →
         ∃ L', dict_get k (loans (db w')) = Some L' ∧
               (L' = L ∨
                (Loan.returned L = None ∧ ∃ when, L' = Loan.set_returned (Some when) L)).
Proof.
  intros Hgen Hsteps.
  assert (generated_ids (loans (db w')) ∧ history_kept (loans (db w)) (loans (db w')))
    as [Hgen' Hhist].
  { induction Hsteps as [w|w1 w2 w3 Hstep Hsteps IH]; [by split|].
    destruct (IH (generated_ids_step _ _ Hgen Hstep)) as [Hgen3 Hhist3].
    split; [done|]. etrans; [by apply history_kept_step|done]. }
  split_and!; [done|by apply generated_ids_NoDup|by apply generated_ids_not_empty| |done].
  clear Hgen Hgen' Hhist. induction Hsteps as [w|w1 w2 w3 [op v Hop] Hsteps IH]; [done|].
  etrans; [|exact IH].
  destruct (op_frame_run_op op w1) as (_ & _ & _ & _ & Hpre & _).
  rewrite Hop in Hpre. simpl in Hpre. apply prefix_length in Hpre.
  by rewrite !length_fmap in Hpre.
Qed.

Lemma loans_append_only_witness :
  generated_ids (loans (db b2_on_loan_r1_banned)) ∧
  NoDup (loans (db b2_on_loan_r1_banned)).*1 ∧
  ("" ∉ (loans (db b2_on_loan_r1_banned)).*1) ∧
  (length (loans (db b2_on_loan)) ≤ length (loans (db b2_on_loan_r1_banned)))%nat ∧
  ∀ k L, dict_get k (loans (db b2_on_loan)) = Some L →
         ∃ L', dict_get k (loans (db b2_on_loan_r1_banned)) = Some L' ∧
               (L' = L ∨
                (Loan.returned L = None ∧ ∃ when, L' = Loan.set_returned (Some when) L)).
Proof.
  apply (loans_append_only b2_on_loan b2_on_loan_r1_banned).
  - vm_compute. reflexivity.
  - eapply rtc_l.
    { apply (step_ok _ _ (BorrowCopy "C1" "R1" d_2025_10_01) (Some "L2")).
      vm_compute. reflexivity. }
    eapply rtc_l.
    { apply (step_ok _ _ (ReturnCopy "C1" (d_2025_10_01 + 35)) None).
      vm_compute. reflexivity. }
    vm_compute. apply rtc_refl.
Defined.

(** A store without loans, whose copies are all IN_LIBRARY and none under the
    empty id, is consistent. *)
Lemma copies_and_loans_consistent_initial d :
  loans d = [] →
  copies d !! "" = None →
  (∀ cid c, copies d !! cid = Some c → Copy.status c = CopyStatus.IN_LIBRARY) →
  copies_and_loans_consistent d.
Proof.
  intros Hl Hempty Hc. unfold copies_and_loans_consistent.
  split_and!; [by rewrite Hl|done|].
  intros cid c Hcid. left. rewrite Hl. split; [by eapply Hc|done].
Qed.

Lemma copy_loans_consistent_seed : copy_loans_consistent (db seed).
Proof.
  intros cid c Hc. left. split; [|done]. revert Hc. cbn.
  rewrite lookup_insert. case_decide; [by intros [= <-]|].
  rewrite lookup_insert. case_decide; [by intros [= <-]|by rewrite lookup_empty].
Qed.

(** X14. The service keeps its copies and its loans in agreement: from a store
    with loan ids L1, L2, ... in order, no copy under the empty id, and each
    copy IN_LIBRARY with no open loan or LOANED with exactly one (for one, any
    store without loans whose copies are IN_LIBRARY), every sequence of
    successful operations leads to such a store, whatever lists of active
    loans the readers hold or share.  In such a store the return of a LOANED
    copy never raises a named fault: the open loan is there. *)
Theorem store_stays_consistent (w w' : World) :
  copies_and_loans_consistent (db w) →
  served w w' →
  copies_and_loans_consistent (db w') ∧
  ∀ cid c when,
    copies (db w') !! cid = Some c →
    Copy.status c = CopyStatus.LOANED →
    (∃ loanId L,
       dict_find (open_loan_of_copy cid) (loans (db w')) = Some loanId ∧
       loanId ≠ "" ∧
       dict_get loanId (loans (db w')) = Some L ∧
       Loan.copyId L = cid ∧ Loan.returned L = None) ∧
    ∀ f w'', return_copy cid when w' ≠ Raise (ValueError f) w''.
Proof.
  intros Hw Hserved. pose proof (copies_and_loans_consistent_served _ _ Hw Hserved) as Hw'.
  split; [done|]. destruct Hw' as (Hgen & _ & Hco).
  intros cid c when Hc Hst.
  destruct (copy_status_count _ _ _ Hco Hc) as [_ Hloaned].
  destruct Hloaned as [_ Hone]; [by rewrite Hst|].
  destruct (count_loans_pos_find (open_loan_of_copy cid) (loans (db w'))) as [loanId Hfind];
    [lia|].
  destruct (dict_find_get _ _ _ (generated_ids_NoDup _ Hgen) Hfind)
    as (L & HL & [Hcp Hopen]%open_loan_of_copy_inv).
  assert (loanId ≠ "") as Hne.
  { intros ->. apply (generated_ids_not_empty _ Hgen).
    apply dec_stable. intros Hnot%dict_get_None. congruence. }
  split; [by exists loanId, L|].
  intros f w'' Hraise. unfold return_copy in Hraise. rewrite bind_unfold in Hraise.
  cbn in Hraise. rewrite Hc, Hst, Hfind in Hraise. cbn in Hraise.
  apply String.eqb_neq in Hne. rewrite Hne in Hraise.
  eapply raises_no_fault_bind; [apply raises_no_fault_lookup_loan| |exact Hraise|reflexivity].
  intros L0. apply raises_no_fault_bind; [apply raises_no_fault_lookup_reader|]. intros _.
  apply raises_no_fault_bind; [|intros _; apply raises_no_fault_notify].
  apply raises_no_fault_close_loan, raises_no_fault_modify_db.
Qed.

Lemma store_stays_consistent_witness :
  copies_and_loans_consistent (db c2_on_loan_shared_list) ∧
  ∀ cid c when,
    copies (db c2_on_loan_shared_list) !! cid = Some c →
    Copy.status c = CopyStatus.LOANED →
    (∃ loanId L,
       dict_find (open_loan_of_copy cid) (loans (db c2_on_loan_shared_list)) = Some loanId ∧
       loanId ≠ "" ∧
       dict_get loanId (loans (db c2_on_loan_shared_list)) = Some L ∧
       Loan.copyId L = cid ∧ Loan.returned L = None) ∧
    ∀ f w'', return_copy cid when c2_on_loan_shared_list ≠ Raise (ValueError f) w''.
Proof.
  apply (store_stays_consistent seed c2_on_loan_shared_list).
  - apply copies_and_loans_consistent_initial.
    + reflexivity.
    + vm_compute. reflexivity.
    + intros cid c. cbn.
      do 2 (rewrite lookup_insert; case_decide; [by intros [= <-]|]).
      by rewrite lookup_empty.
  - apply (served_call seed (BorrowCopy "C1" "R1" d_2025_10_01) (Some "L1")
             c1_on_loan c1_on_loan_shared_list).
    + vm_compute. reflexivity.
    + by split_and!.
    + apply (served_call _ (BorrowCopy "C2" "R2" d_2025_10_01) (Some "L2")
               c2_on_loan_shared_list c2_on_loan_shared_list).
      * vm_compute. reflexivity.
      * by split_and!.
      * apply served_refl.
Defined.

(** ** Borrowing and returning in time *)

Lemma filter_ne_snoc (l : list string) (id : string) :
  id ∉ l → filter (λ x, x ≠ id) (l ++ [id])%list = l.
Proof.
  induction l as [|x l IH]; simpl.
  - intros _. by rewrite filter_cons_False, filter_nil by (by intros []).
  - rewrite not_elem_of_cons. intros [Hne Hnin].
    rewrite filter_cons_True by done. by rewrite IH.
Qed.

Lemma generated_id_not_empty (s : string) : String.eqb ("L" +:+ s) "" = false.
Proof. reflexivity. Qed.

Lemma close_loan_on_time loanId rid when gc gn w L R :
  dict_get loanId (loans (db w)) = Some L →
  readers (db w) !! rid = Some R →
  when ≤ Loan.due L →
  close_loan loanId rid when
    (modify_db (λ d, mkDb (books d) (gc (copies d)) (readers d) (loans d)
                          (gn (newReleaseBorrowed d)))) w =
  Ok tt (mkWorld
           (mkDb (books (db w)) (gc (copies (db w)))
                 (<[rid := closed_reader loanId (Loan.due L) when R]> (readers (db w)))
                 (dict_alter (Loan.set_returned (Some when)) loanId (loans (db w)))
                 (gn (newReleaseBorrowed (db w))))
           (alert w) (outbox w)).
Proof.
  intros HL HR Hontime.
  destruct (close_loan _ _ _ _ w) as [[] w'|e w'] eqn:Hclose.
  - by apply (close_loan_Ok _ _ _ gc gn _ _ L R HL HR) in Hclose as ->.
  - apply (close_loan_Raise _ _ _ gc gn _ _ _ L HL) in Hclose as (_ & Hlate & _). lia.
Qed.

(** X15. Borrowing a copy and returning it on or before its due date gives the
    store back.  In a store with loan ids L1, L2, ... whose copies and loans
    agree, and for a borrower whose active loan ids are ids of loans of the
    store: after the return, books, copies and borrowed originals are exactly
    what they were before the borrow (the copy IN_LIBRARY), the record of the
    borrower is what it was (no ban, the same active loans), and the loans
    hold one more entry, the closed loan.  The other readers are not looked
    at: they are after the return what they were before it, whatever they
    were.  The return cannot raise a named fault; without a gateway it
    returns, and with one the store is as said even if the notification
    raises. *)
Theorem borrow_return_round_trip (copyId readerId : string) (today when : date)
    (w : World) (r : Reader.t) (loanId : string) (w1 w1' : World) :
  generated_ids (loans (db w)) →
  copy_loans_consistent (db w) →
  readers (db w) !! readerId = Some r →
  (∀ id, id ∈ Reader.activeLoanIds r → is_Some (dict_get id (loans (db w)))) →
  borrow_copy copyId readerId today w = Ok loanId w1 →
  same_but_other_readers readerId w1 w1' →
  when ≤ today + 30 →
  ∃ c,
    copies (db w) !! copyId = Some c ∧
    db (state_of (return_copy copyId when w1')) =
      mkDb (books (db w)) (copies (db w)) (<[readerId := r]> (readers (db w1')))
           (loans (db w) ++
            [(loanId, Loan.mk copyId (Copy.bookId c) readerId today (today + 30)
                              (Some when))])%list
           (newReleaseBorrowed (db w)) ∧
    (∀ f w2, return_copy copyId when w1' ≠ Raise (ValueError f) w2) ∧
    (gateway (alert w) = None →
     return_copy copyId when w1' =
     Ok tt (mkWorld (db (state_of (return_copy copyId when w1'))) (alert w) (outbox w))).
Proof.
  intros Hgen Hco Hr Hids Hborrow Hsame Hontime.
  apply borrow_copy_Ok in Hborrow as (c & r0 & Hc & Hr0 & _ & Hst & _ & -> & ->).
  assert (r0 = r) as -> by congruence.
  pose proof (generated_ids_next_fresh _ Hgen) as Hfresh.
  destruct w1' as [[bs cs rs ls nrb] al ob].
  destruct Hsame as (Hal & Hob & (Hbs & Hcs & Hls & Hnrb) & Hrs).
  cbn in Hal, Hob, Hbs, Hcs, Hls, Hnrb, Hrs. subst al ob bs cs ls nrb.
  rewrite lookup_insert_eq in Hrs.
  set (Lnew := Loan.mk copyId (Copy.bookId c) readerId today (today + 30) None).
  set (w3 := mkWorld
    (mkDb (books (db w)) (copies (db w)) (<[readerId := r]> rs)
          (loans (db w) ++ [(next_loan_id (db w), Loan.set_returned (Some when) Lnew)])
          (newReleaseBorrowed (db w))) (alert w) (outbox w)).
  assert (return_copy copyId when
            (mkWorld
               (mkDb (books (db w))
                     (<[copyId := Copy.set_status CopyStatus.LOANED c]> (copies (db w)))
                     rs
                     (dict_set (next_loan_id (db w)) Lnew (loans (db w)))
                     (newReleaseBorrowed (db w)))
               (alert w) (outbox w)) =
          notify_available (Copy.bookId c) email_of_reader title_of_book w3) as Hret.
  { unfold return_copy. rewrite bind_unfold. cbn. rewrite lookup_insert_eq. cbn.
    unfold next_loan_id in *. rewrite generated_ids_set_next by done.
    destruct (copy_status_count _ _ _ Hco Hc) as [Hzero _].
    rewrite (dict_find_app_None _ _ _ _ (count_loans_zero_find _ _ (Hzero Hst))).
    unfold open_loan_of_copy at 1. cbn. rewrite String.eqb_refl. cbn.
    rewrite generated_id_not_empty.
    rewrite bind_unfold. unfold lookup_loan at 1. rewrite bind_unfold. cbn.
    rewrite <-generated_ids_set_next by done.
    rewrite dict_get_set, String.eqb_refl. cbn.
    rewrite bind_unfold. unfold lookup_reader at 1. rewrite bind_unfold. cbn.
    rewrite Hrs. cbn. rewrite bind_unfold. unfold alter_copy.
    rewrite (close_loan_on_time _ _ _ (alter (Copy.set_status CopyStatus.IN_LIBRARY) copyId)
               (λ s, s) _ Lnew
               (Reader.set_activeLoanIds
                  (Reader.activeLoanIds r ++ ["L" +:+ pretty (length (loans (db w)) + 1)%nat])
                  r)); cbn.
    2:{ by rewrite dict_get_set, String.eqb_refl. }
    2:{ done. }
    2:{ done. }
    f_equal. unfold w3, next_loan_id. f_equal. f_equal.
    - rewrite (alter_alt_Some _ _ _ _ (lookup_insert_eq _ _ _)), insert_insert_eq.
      apply insert_id. rewrite Hc. f_equal. destruct c; cbn in *. by subst.
    - f_equal. unfold closed_reader. cbn.
      destruct (Z.ltb_spec (today + 30) when); [lia|].
      rewrite filter_ne_snoc; [by destruct r|].
      intros [L HL]%Hids. apply dict_get_None in Hfresh. congruence.
    - rewrite generated_ids_set_next by done. by apply dict_alter_app_fresh. }
  exists c. split; [done|]. cbn [db readers]. rewrite Hret. split_and!.
  - by destruct (notify_available_frame (Copy.bookId c) email_of_reader title_of_book w3)
      as [-> _].
  - intros f w2 Hraise. by eapply raises_no_fault_notify.
  - intros Hg. unfold notify_available. rewrite bind_unfold. by cbn; rewrite Hg.
Qed.

Lemma borrow_return_round_trip_witness :
  ∃ c,
    copies (db seed) !! "C1" = Some c ∧
    db (state_of (return_copy "C1" (d_2025_10_01 + 30) c1_on_loan_shared_list)) =
      mkDb (books (db seed)) (copies (db seed))
           (<["R1" := Reader.mk "R1" "alice@example.com" None []]>
              (readers (db c1_on_loan_shared_list)))
           (loans (db seed) ++
            [("L1", Loan.mk "C1" (Copy.bookId c) "R1" d_2025_10_01 (d_2025_10_01 + 30)
                            (Some (d_2025_10_01 + 30)))])
           (newReleaseBorrowed (db seed)) ∧
    (∀ f w2, return_copy "C1" (d_2025_10_01 + 30) c1_on_loan_shared_list ≠
             Raise (ValueError f) w2) ∧
    (gateway (alert seed) = None →
     return_copy "C1" (d_2025_10_01 + 30) c1_on_loan_shared_list =
     Ok tt (mkWorld (db (state_of (return_copy "C1" (d_2025_10_01 + 30)
                                     c1_on_loan_shared_list)))
                    (alert seed) (outbox seed))).
Proof.
  apply (borrow_return_round_trip "C1" "R1" d_2025_10_01 (d_2025_10_01 + 30) seed
           (Reader.mk "R1" "alice@example.com" None []) "L1"
           c1_on_loan c1_on_loan_shared_list).
  - reflexivity.
  - exact copy_loans_consistent_seed.
  - vm_compute. reflexivity.
  - intros id Hin. by apply not_elem_of_nil in Hin.
  - vm_compute. reflexivity.
  - split_and!; [reflexivity|reflexivity|by split_and!|vm_compute; reflexivity].
  - lia.
Defined.

(** ** Returns that go through *)

Lemma close_loan_succeeds loanId rid when gc gn w L R :
  dict_get loanId (loans (db w)) = Some L →
  readers (db w) !! rid = Some R →
  (Loan.due L < when → MINORDINAL ≤ when + 2 * (when - Loan.due L) ≤ MAXORDINAL) →
  close_loan loanId rid when
    (modify_db (λ d, mkDb (books d) (gc (copies d)) (readers d) (loans d)
                          (gn (newReleaseBorrowed d)))) w =
  Ok tt (mkWorld
           (mkDb (books (db w)) (gc (copies (db w)))
                 (<[rid := closed_reader loanId (Loan.due L) when R]> (readers (db w)))
                 (dict_alter (Loan.set_returned (Some when)) loanId (loans (db w)))
                 (gn (newReleaseBorrowed (db w))))
           (alert w) (outbox w)).
Proof.
  intros HL HR Hrange.
  destruct (close_loan _ _ _ _ w) as [[] w'|e w'] eqn:Hclose.
  - by apply (close_loan_Ok _ _ _ gc gn _ _ L R HL HR) in Hclose as ->.
  - apply (close_loan_Raise _ _ _ gc gn _ _ _ L HL) in Hclose as (_ & Hlate & Hout & _).
    by destruct Hout; apply Hrange.
Qed.

Lemma notify_available_store_succeeds b w :
  notifiable b w → ∃ w', notify_available b email_of_reader title_of_book w = Ok tt w'.
Proof.
  intros Hn.
  destruct (notify_available b email_of_reader title_of_book w) as [[] w'|e w'] eqn:H;
    [by eexists|].
  exfalso. destruct Hn as [Hg | [[B HB] Hsubs]].
  - by apply notify_available_store_Raise in H as (_ & ? & _).
  - unfold notify_available in H. rewrite bind_unfold in H. cbn in H.
    destruct (gateway (alert w)) as [g|]; [|discriminate].
    rewrite bind_unfold in H. unfold call, title_of_book in H. rewrite HB in H. simpl in H.
    rewrite (send_loop_Ok email_of_reader g (Book.title B)
               (λ rid, default "" (Reader.email <$> readers (db w) !! rid))) in H;
      [discriminate|].
    intros rid Hin%elem_of_elements. unfold email_of_reader.
    by destruct (Hsubs rid Hin) as [R ->].
Qed.

Lemma notifiable_closed b w bs cs rid R ls nrb :
  notifiable b w →
  bs = books (db w) →
  notifiable b (mkWorld (mkDb bs cs (<[rid := R]> (readers (db w))) ls nrb)
                        (alert w) (outbox w)).
Proof.
  intros [Hg | [HB Hsubs]] ->; [by left|]. right. cbn. split; [done|].
  intros rid' Hin. rewrite lookup_insert. case_decide; [by eexists|]. by apply Hsubs.
Qed.

Lemma return_copy_succeeds copyId when w c loanId L R :
  copies (db w) !! copyId = Some c →
  Copy.status c = CopyStatus.LOANED ∨ Copy.status c = CopyStatus.LATE →
  dict_find (open_loan_of_copy copyId) (loans (db w)) = Some loanId →
  loanId ≠ "" →
  dict_get loanId (loans (db w)) = Some L →
  readers (db w) !! Loan.readerId L = Some R →
  (Loan.due L < when → MINORDINAL ≤ when + 2 * (when - Loan.due L) ≤ MAXORDINAL) →
  notifiable (Loan.bookId L) w →
  ∃ w', return_copy copyId when w = Ok tt w'.
Proof.
  intros Hc Hst Hfind Hne%String.eqb_neq HL HR Hrange Hn.
  unfold return_copy. rewrite bind_unfold. cbn. rewrite Hc.
  assert (negb (String.eqb (Copy.status c) CopyStatus.LOANED
                || String.eqb (Copy.status c) CopyStatus.LATE) = false) as ->.
  { by destruct Hst as [-> | ->]. }
  rewrite Hfind, Hne.
  rewrite bind_unfold. unfold lookup_loan at 1. rewrite bind_unfold. cbn. rewrite HL. cbn.
  rewrite bind_unfold. unfold lookup_reader at 1. rewrite bind_unfold. cbn. rewrite HR. cbn.
  rewrite bind_unfold. unfold alter_copy.
  rewrite (close_loan_succeeds _ _ _ (alter (Copy.set_status CopyStatus.IN_LIBRARY) copyId)
             (λ s, s) _ L R HL HR Hrange).
  apply notify_available_store_succeeds. by apply notifiable_closed.
Qed.

Lemma return_original_succeeds bookId readerId when w loanId L R :
  is_Some (books (db w) !! bookId) →
  bookId ∈ newReleaseBorrowed (db w) →
  dict_find (open_original_loan bookId readerId) (loans (db w)) = Some loanId →
  loanId ≠ "" →
  dict_get loanId (loans (db w)) = Some L →
  readers (db w) !! readerId = Some R →
  (Loan.due L < when → MINORDINAL ≤ when + 2 * (when - Loan.due L) ≤ MAXORDINAL) →
  notifiable bookId w →
  ∃ w', return_original_new_release bookId readerId when w = Ok tt w'.
Proof.
  intros Hb Hin Hfind Hne%String.eqb_neq HL HR Hrange Hn.
  unfold return_original_new_release. rewrite bind_unfold. cbn.
  rewrite bool_decide_eq_false_2 by (intros Hnot; by apply Hnot, elem_of_dom).
  rewrite bool_decide_eq_false_2
    by (intros Hnot; apply Hnot, elem_of_dom; by rewrite HR).
  rewrite bool_decide_eq_false_2 by (by intros Hnot).
  rewrite Hfind, Hne.
  rewrite bind_unfold. unfold lookup_loan at 1. rewrite bind_unfold. cbn. rewrite HL. cbn.
  rewrite bind_unfold. unfold lookup_reader at 1. rewrite bind_unfold. cbn. rewrite HR. cbn.
  rewrite bind_unfold. unfold modify_newReleaseBorrowed.
  rewrite (close_loan_succeeds _ _ _ (λ c, c) (λ s, s ∖ {[bookId]}) _ L R HL HR Hrange).
  apply notify_available_store_succeeds. by apply notifiable_closed.
Qed.

Lemma closed_reader_late_ban loanId when L R :
  Loan.due L < when →
  Loan.late_days (Loan.set_returned (Some when) L) = when - Loan.due L ∧
  Reader.activeBanUntil (closed_reader loanId (Loan.due L) when R) =
    Some (when + 2 * (when - Loan.due L)).
Proof.
  intros Hlate%Z.ltb_lt. rewrite late_days_closed. unfold closed_reader. cbn.
  by rewrite Hlate.
Qed.

(** ** A late return overwrites the ban *)

(** C8. A late return ([lateDays > 0], that is, [when] after the due date of
    the loan it closes) sets the borrower's [activeBanUntil] to
    [when + 2 * lateDays], whatever ban the borrower had before: the old value
    is overwritten, not extended.  This holds for [return_copy] and for
    [return_original_new_release]: whenever one of them returns, the ban of
    the borrower is that one, and each of them does return, with that ban,
    when its checks pass, the end of the ban is a date and the notification
    can go through. *)
Theorem late_return_overwrites_ban :
  (∀ copyId when w w',
     return_copy copyId when w = Ok tt w' →
     ∃ loanId L R R',
       dict_find (open_loan_of_copy copyId) (loans (db w)) = Some loanId ∧
       dict_get loanId (loans (db w)) = Some L ∧
       readers (db w) !! Loan.readerId L = Some R ∧
       readers (db w') !! Loan.readerId L = Some R' ∧
       (Loan.due L < when →
        Loan.late_days (Loan.set_returned (Some when) L) = when - Loan.due L ∧
        ∀ old, Reader.activeBanUntil R = old →
               Reader.activeBanUntil R' = Some (when + 2 * (when - Loan.due L)))) ∧
  (∀ bookId readerId when w w',
     return_original_new_release bookId readerId when w = Ok tt w' →
     ∃ loanId L R R',
       dict_find (open_original_loan bookId readerId) (loans (db w)) = Some loanId ∧
       dict_get loanId (loans (db w)) = Some L ∧
       readers (db w) !! readerId = Some R ∧
       readers (db w') !! readerId = Some R' ∧
       (Loan.due L < when →
        Loan.late_days (Loan.set_returned (Some when) L) = when - Loan.due L ∧
        ∀ old, Reader.activeBanUntil R = old →
               Reader.activeBanUntil R' = Some (when + 2 * (when - Loan.due L)))) ∧
  (∀ copyId when w c loanId L R,
     copies (db w) !! copyId = Some c →
     Copy.status c = CopyStatus.LOANED ∨ Copy.status c = CopyStatus.LATE →
     dict_find (open_loan_of_copy copyId) (loans (db w)) = Some loanId →
     loanId ≠ "" →
     dict_get loanId (loans (db w)) = Some L →
     readers (db w) !! Loan.readerId L = Some R →
     Loan.due L < when →
     MINORDINAL ≤ when + 2 * (when - Loan.due L) ≤ MAXORDINAL →
     notifiable (Loan.bookId L) w →
     ∃ w' R',
       return_copy copyId when w = Ok tt w' ∧
       readers (db w') !! Loan.readerId L = Some R' ∧
       Reader.activeBanUntil R' = Some (when + 2 * (when - Loan.due L))) ∧
  (∀ bookId readerId when w loanId L R,
     is_Some (books (db w) !! bookId) →
     bookId ∈ newReleaseBorrowed (db w) →
     dict_find (open_original_loan bookId readerId) (loans (db w)) = Some loanId →
     loanId ≠ "" →
     dict_get loanId (loans (db w)) = Some L →
     readers (db w) !! readerId = Some R →
     Loan.due L < when →
     MINORDINAL ≤ when + 2 * (when - Loan.due L) ≤ MAXORDINAL →
     notifiable bookId w →
     ∃ w' R',
       return_original_new_release bookId readerId when w = Ok tt w' ∧
       readers (db w') !! readerId = Some R' ∧
       Reader.activeBanUntil R' = Some (when + 2 * (when - Loan.due L))).
Proof.
  split_and!.
  - intros copyId when w w' (loanId & L & R & ? & ? & ? & ? & ?)%return_copy_closes.
    exists loanId, L, R, (closed_reader loanId (Loan.due L) when R).
    do 4 (split; [done|]). intros Hlate.
    destruct (closed_reader_late_ban loanId when L R Hlate) as [Hdays Hban].
    split; [done|]. by intros old _.
  - intros bookId readerId when w w'
      (loanId & L & R & ? & ? & ? & ? & ?)%return_original_closes.
    exists loanId, L, R, (closed_reader loanId (Loan.due L) when R).
    do 4 (split; [done|]). intros Hlate.
    destruct (closed_reader_late_ban loanId when L R Hlate) as [Hdays Hban].
    split; [done|]. by intros old _.
  - intros copyId when w c loanId L R Hc Hst Hfind Hne HL HR Hlate Hrange Hn.
    destruct (return_copy_succeeds copyId when w c loanId L R) as [w' Hret]; try done.
    exists w', (closed_reader loanId (Loan.due L) when R). split; [done|].
    apply return_copy_Ok in Hret
      as (c' & loanId' & L' & R' & _ & _ & Hfind' & _ & HL' & HR' & Hdb & _).
    assert (loanId' = loanId) as -> by congruence.
    assert (L' = L) as -> by congruence.
    assert (R' = R) as -> by congruence.
    split; [|by apply closed_reader_late_ban].
    rewrite Hdb. cbn. apply lookup_insert_eq.
  - intros bookId readerId when w loanId L R Hb Hin Hfind Hne HL HR Hlate Hrange Hn.
    destruct (return_original_succeeds bookId readerId when w loanId L R) as [w' Hret];
      try done.
    exists w', (closed_reader loanId (Loan.due L) when R). split; [done|].
    apply return_original_Ok in Hret
      as (loanId' & L' & R' & _ & _ & Hfind' & _ & HL' & HR' & Hdb & _).
    assert (loanId' = loanId) as -> by congruence.
    assert (L' = L) as -> by congruence.
    assert (R' = R) as -> by congruence.
    split; [|by apply closed_reader_late_ban].
    rewrite Hdb. cbn. apply lookup_insert_eq.
Qed.

Lemma late_return_overwrites_ban_witness :
  (∃ w' R',
     return_original_new_release "B2" "R2" (d_2025_10_01 + 32) b2_on_loan_r2_banned =
       Ok tt w' ∧
     readers (db w') !! "R2" = Some R' ∧
     Reader.activeBanUntil R' =
       Some (d_2025_10_01 + 32 + 2 * (d_2025_10_01 + 32 - (d_2025_10_01 + 30)))) ∧
  (∃ w' R',
     return_copy "C1" (d_2025_10_01 + 31) c1_on_loan_r1_banned = Ok tt w' ∧
     readers (db w') !! "R1" = Some R' ∧
     Reader.activeBanUntil R' =
       Some (d_2025_10_01 + 31 + 2 * (d_2025_10_01 + 31 - (d_2025_10_01 + 30)))).
Proof.
  destruct late_return_overwrites_ban as (_ & _ & Hcopy & Horiginal). split.
  - apply (Horiginal "B2" "R2" (d_2025_10_01 + 32) b2_on_loan_r2_banned "L1"
             (Loan.mk "" "B2" "R2" d_2025_10_01 (d_2025_10_01 + 30) None)
             (Reader.mk "R2" "bob@example.com" (Some (d_2025_10_01 + 92)) ["L1"])).
    + eexists. vm_compute. reflexivity.
    + apply (bool_decide_unpack _). vm_compute. exact I.
    + vm_compute. reflexivity.
    + discriminate.
    + vm_compute. reflexivity.
    + vm_compute. reflexivity.
    + cbn. lia.
    + unfold MINORDINAL, MAXORDINAL, d_2025_10_01. cbn. lia.
    + left. reflexivity.
  - apply (Hcopy "C1" (d_2025_10_01 + 31) c1_on_loan_r1_banned
             (Copy.mk "C1" "B1" CopyStatus.LOANED) "L1"
             (Loan.mk "C1" "B1" "R1" d_2025_10_01 (d_2025_10_01 + 30) None)
             (Reader.mk "R1" "alice@example.com" (Some (d_2025_10_01 + 92)) ["L1"])).
    + vm_compute. reflexivity.
    + left. reflexivity.
    + vm_compute. reflexivity.
    + discriminate.
    + vm_compute. reflexivity.
    + vm_compute. reflexivity.
    + cbn. lia.
    + unfold MINORDINAL, MAXORDINAL, d_2025_10_01. cbn. lia.
    + left. reflexivity.
Defined.

(** The ban of 2026-01-01 is gone after a return one day late, on 2025-11-01:
    the reader is banned until 2025-11-03, earlier than before.  The same
    happens to R2, who returns the original of B2 two days late, on
    2025-11-02, and is banned until 2025-11-06. *)
Example late_return_shortens_ban :
  Reader.activeBanUntil <$> readers (db c1_on_loan_r1_banned) !! "R1" =
    Some (Some (d_2025_10_01 + 92)) ∧
  Reader.activeBanUntil <$>
    readers (db (after [ReturnCopy "C1" (d_2025_10_01 + 31)] c1_on_loan_r1_banned)) !! "R1" =
    Some (Some (d_2025_10_01 + 33)) ∧
  Reader.activeBanUntil <$> readers (db b2_on_loan_r2_banned) !! "R2" =
    Some (Some (d_2025_10_01 + 92)) ∧
  return_original_new_release "B2" "R2" (d_2025_10_01 + 32) b2_on_loan_r2_banned =
    Ok tt (after [ReturnOriginal "B2" "R2" (d_2025_10_01 + 32)] b2_on_loan_r2_banned) ∧
  Reader.activeBanUntil <$>
    readers (db (after [ReturnOriginal "B2" "R2" (d_2025_10_01 + 32)]
                       b2_on_loan_r2_banned)) !! "R2" =
    Some (Some (d_2025_10_01 + 36)).
Proof. split_and!; vm_compute; reflexivity. Qed.

(** ** One open loan of an original, whatever the calls do *)

Lemma borrow_copy_Raise copyId readerId today w e w' :
  borrow_copy copyId readerId today w = Raise e w' → w' = w.
Proof.
  unfold borrow_copy. rewrite bind_unfold. cbn.
  destruct (copies (db w) !! copyId) as [c|]; [|by intros [= _ <-]].
  destruct (readers (db w) !! readerId) as [r|]; [|by intros [= _ <-]].
  destruct (negb _); [by intros [= _ <-]|].
  destruct (negb _); [by intros [= _ <-]|].
  intros [H | (due & w1 & (-> & -> & _)%add_days_Ok & H)]%bind_Raise_inv.
  - by apply add_days_Raise in H as (_ & -> & _).
  - discriminate.
Qed.

Lemma borrow_original_Raise bookId readerId today w e w' :
  borrow_original_new_release bookId readerId today w = Raise e w' → w' = w.
Proof.
  unfold borrow_original_new_release. rewrite bind_unfold. cbn.
  destruct (books (db w) !! bookId) as [b|]; [|by intros [= _ <-]].
  destruct (readers (db w) !! readerId) as [r|]; [|by intros [= _ <-]].
  destruct (negb _); [by intros [= _ <-]|].
  destruct (negb _); [by intros [= _ <-]|].
  destruct (bool_decide _); [by intros [= _ <-]|].
  intros [H | (due & w1 & (-> & -> & _)%add_days_Ok & H)]%bind_Raise_inv.
  - by apply add_days_Raise in H as (_ & -> & _).
  - discriminate.
Qed.

(** A [return_original_new_release] that raises leaves the state as it was,
    or has marked the loan returned and nothing else, or has completed the
    return in the store. *)
Lemma return_original_Raise bookId readerId when w e w' :
  return_original_new_release bookId readerId when w = Raise e w' →
  w' = w ∨
  ∃ loanId L R,
    dict_find (open_original_loan bookId readerId) (loans (db w)) = Some loanId ∧
    dict_get loanId (loans (db w)) = Some L ∧
    readers (db w) !! readerId = Some R ∧
    ((e = OverflowError ∧
      w' = mkWorld
             (mkDb (books (db w)) (copies (db w)) (readers (db w))
                   (dict_alter (Loan.set_returned (Some when)) loanId (loans (db w)))
                   (newReleaseBorrowed (db w)))
             (alert w) (outbox w)) ∨
     ((∃ k, e = KeyError k) ∧
      db w' =
        mkDb (books (db w)) (copies (db w))
             (<[readerId := closed_reader loanId (Loan.due L) when R]> (readers (db w)))
             (dict_alter (Loan.set_returned (Some when)) loanId (loans (db w)))
             (newReleaseBorrowed (db w) ∖ {[bookId]}))).
Proof.
  unfold return_original_new_release. rewrite bind_unfold. cbn.
  do 3 (destruct (bool_decide _); [intros [= _ <-]; by left|]).
  destruct (dict_find _ _) as [loanId|] eqn:Hfind; [|intros [= _ <-]; by left].
  destruct (String.eqb loanId ""); [intros [= _ <-]; by left|].
  intros H.
  apply bind_Raise_inv in H as [[_ ->]%lookup_loan_Raise | (L & w1 & [-> HL]%lookup_loan_Ok & H)];
    [by left|].
  apply bind_Raise_inv in H
    as [[_ ->]%lookup_reader_Raise | (R & w2 & [-> HR]%lookup_reader_Ok & H)];
    [by left|].
  right. exists loanId, L, R. do 3 (split; [done|]).
  apply bind_Raise_inv in H as [H | ([] & w3 & Hclose & H)].
  - left.
    apply (close_loan_Raise _ _ _ (λ c, c) (λ s, s ∖ {[bookId]}) _ _ _ L HL) in H
      as (-> & _ & _ & ->).
    done.
  - right.
    apply (close_loan_Ok _ _ _ (λ c, c) (λ s, s ∖ {[bookId]}) _ _ L R HL HR) in Hclose as ->.
    by apply notify_available_store_Raise in H as (Hk & _ & -> & _).
Qed.

(** Marking a loan returned, and changing the books and the readers, keeps a
    store consistent about originals, as long as no copy comes under the
    empty id. *)
Lemma originals_consistent_closed d bs cs rs loanId when :
  originals_consistent d →
  cs !! "" = None →
  originals_consistent
    (mkDb bs cs rs (dict_alter (Loan.set_returned (Some when)) loanId (loans d))
          (newReleaseBorrowed d)).
Proof.
  intros (Hnd & _ & Hcount) Hempty. unfold originals_consistent. cbn. split_and!.
  - by rewrite dict_alter_keys.
  - done.
  - intros b. etrans; [|apply Hcount]. apply count_loans_alter_le.
    intros L0. by rewrite is_open_original_closed.
Qed.

(** So does closing the open loan of an original and taking the book out of
    the borrowed originals. *)
Lemma originals_consistent_original_returned d bs rs bookId readerId loanId when :
  originals_consistent d →
  dict_find (open_original_loan bookId readerId) (loans d) = Some loanId →
  originals_consistent
    (mkDb bs (copies d) rs (dict_alter (Loan.set_returned (Some when)) loanId (loans d))
          (newReleaseBorrowed d ∖ {[bookId]})).
Proof.
  intros (Hnd & Hempty & Hcount) Hfind. unfold originals_consistent. cbn. split_and!.
  - by rewrite dict_alter_keys.
  - done.
  - intros b. pose proof (Hcount b) as Hb.
    destruct (decide (b = bookId)) as [->|Hne].
    + pose proof (count_loans_alter_found (is_open_original bookId)
                    (open_original_loan bookId readerId)
                    (Loan.set_returned (Some when)) loanId (loans d) Hnd
                    (open_original_loan_is_open bookId readerId)
                    (is_open_original_closed bookId when) Hfind) as Hone.
      destruct (bool_decide (bookId ∈ newReleaseBorrowed d)); lia.
    + etrans; [apply count_loans_alter_le|etrans; [apply Hb|]].
      { intros L0. by rewrite is_open_original_closed. }
      assert (b ∈ newReleaseBorrowed d ∖ {[bookId]} ↔ b ∈ newReleaseBorrowed d) as Hiff.
      { rewrite elem_of_difference, elem_of_singleton. tauto. }
      by repeat case_bool_decide; first [lia | tauto].
Qed.

Lemma originals_consistent_run_op op w :
  originals_consistent (db w) → originals_consistent (db (state_of (run_op op w))).
Proof.
  intros Hw. destruct (run_op op w) as [v w'|e w'] eqn:Hop; simpl.
  { apply (originals_consistent_step w); [done|]. by apply (step_ok _ _ op v). }
  destruct op; simpl in Hop;
    apply bind_Raise_inv in Hop as [Hop | (a & w1 & _ & Hop)]; try discriminate.
  - by apply borrow_copy_Raise in Hop as ->.
  - by apply borrow_original_Raise in Hop as ->.
  - apply return_copy_Raise in Hop
      as [[-> _] | (c & loanId & L & R & Hc & _ & _ & _ & [(_ & _ & _ & ->) | (_ & _ & -> & _)])];
      [done| |].
    + apply originals_consistent_closed; [done|apply Hw].
    + apply originals_consistent_closed; [done|].
      rewrite lookup_insert_ne; [apply Hw|]. intros ->.
      destruct Hw as (_ & Hempty & _). congruence.
  - apply return_original_Raise in Hop
      as [-> | (loanId & L & R & Hfind & _ & _ & [[_ ->] | [_ ->]])]; [done| |].
    + apply originals_consistent_closed; [done|apply Hw].
    + by eapply originals_consistent_original_returned.
Qed.

Lemma originals_consistent_after ops w :
  originals_consistent (db w) → originals_consistent (db (after ops w)).
Proof.
  revert w. induction ops as [|op ops IH]; intros w Hw; [done|].
  apply IH. by apply originals_consistent_run_op.
Qed.

(** C7 (amended). In a store that is consistent about originals, and after any
    sequence of calls from it, whether they return or raise, a book has at
    most one open loan of its original.  While a book is in the borrowed
    originals, no [borrow_original_new_release] of it succeeds, whoever asks;
    the fault is ORIGINAL_ALREADY_BORROWED when the book is a new release of
    the store and the reader is one who can borrow (the checks on the book and
    on the reader come first).  Once [return_original_new_release] has
    succeeded the book is out of the borrowed originals and has no open loan
    of its original, and any reader who can borrow, on a day whose due date
    exists, borrows it successfully. *)
Theorem one_original_loan_at_a_time (ops : list Op) (w w' : World) :
  originals_consistent (db w) →
  after ops w = w' →
  originals_consistent (db w') ∧
  (∀ b, (count_loans (is_open_original b) (loans (db w')) ≤ 1)%nat) ∧
  (∀ bookId readerId today,
     bookId ∈ newReleaseBorrowed (db w') →
     (∀ loanId w2,
        borrow_original_new_release bookId readerId today w' ≠ Ok loanId w2) ∧
     (∀ b r,
        books (db w') !! bookId = Some b →
        Book.isNewRelease b = true →
        readers (db w') !! readerId = Some r →
        Reader.can_borrow r today = true →
        borrow_original_new_release bookId readerId today w' =
        Raise (ValueError ORIGINAL_ALREADY_BORROWED) w')) ∧
  (∀ bookId readerId when w2,
     return_original_new_release bookId readerId when w' = Ok tt w2 →
     (bookId ∉ newReleaseBorrowed (db w2)) ∧
     count_loans (is_open_original bookId) (loans (db w2)) = 0%nat ∧
     ∀ b other r today,
       books (db w2) !! bookId = Some b →
       Book.isNewRelease b = true →
       readers (db w2) !! other = Some r →
       Reader.can_borrow r today = true →
       MINORDINAL ≤ today + 30 ≤ MAXORDINAL →
       ∃ w3, borrow_original_new_release bookId other today w2 =
             Ok (next_loan_id (db w2)) w3).
Proof.
  intros Hw <-.
  pose proof (originals_consistent_after ops _ Hw) as Hw'.
  split_and!; [done|..].
  - intros b. destruct Hw' as (_ & _ & Hcount). etrans; [apply Hcount|].
    case_bool_decide; lia.
  - intros bookId readerId today Hin. split.
    + intros loanId w2 (b & r & _ & _ & _ & _ & Hout & _)%borrow_original_Ok. done.
    + intros b r Hb Hnew Hr Hcan.
      unfold borrow_original_new_release. rewrite bind_unfold. cbn.
      rewrite Hb, Hr, Hnew, Hcan. cbn. by rewrite bool_decide_eq_true_2.
  - intros bookId readerId when w2 Hret.
    assert (originals_consistent (db w2)) as (_ & _ & Hcount).
    { apply (originals_consistent_step (after ops w)); [done|].
      apply (step_ok _ _ (ReturnOriginal bookId readerId when) None).
      simpl. rewrite bind_unfold. by rewrite Hret. }
    assert (bookId ∉ newReleaseBorrowed (db w2)) as Hout.
    { apply return_original_Ok in Hret as (k & L & R & _ & _ & _ & _ & _ & _ & Hdb & _).
      rewrite Hdb. cbn. apply not_elem_of_difference. right. by apply elem_of_singleton. }
    split_and!; [done| |].
    + specialize (Hcount bookId). rewrite bool_decide_eq_false_2 in Hcount by done. lia.
    + intros b other r today Hb Hnew Hr Hcan Hrange.
      by eapply borrow_original_succeeds.
Qed.

Lemma one_original_loan_at_a_time_witness :
  (count_loans (is_open_original "B2") (loans (db b2_on_loan)) ≤ 1)%nat ∧
  borrow_original_new_release "B2" "R1" d_2025_10_01 b2_on_loan =
    Raise (ValueError ORIGINAL_ALREADY_BORROWED) b2_on_loan ∧
  ∃ w3, borrow_original_new_release "B2" "R1" d_2025_10_01
          (after [ReturnOriginal "B2" "R2" (d_2025_10_01 + 9)] b2_on_loan) =
        Ok (next_loan_id (db (after [ReturnOriginal "B2" "R2" (d_2025_10_01 + 9)]
                                    b2_on_loan))) w3.
Proof.
  assert (after [BorrowOriginal "B2" "R2" d_2025_10_01;
                 BorrowOriginal "B2" "R1" d_2025_10_01;
                 ReturnOriginal "B2" "R1" d_2025_10_01] seed = b2_on_loan) as Hafter
    by (vm_compute; reflexivity).
  destruct (one_original_loan_at_a_time _ seed b2_on_loan originals_consistent_seed Hafter)
    as (_ & Hone & Hout & Hback).
  split_and!.
  - apply Hone.
  - assert ("B2" ∈ newReleaseBorrowed (db b2_on_loan)) as Hin
      by (apply (bool_decide_unpack _); vm_compute; exact I).
    apply (proj2 (Hout "B2" "R1" d_2025_10_01 Hin)
             (Book.mk "B2" "Clean C++ (New Release)" 2025
                      (Author.mk "Some Author" "1980-01-01") "1st" true)
             (Reader.mk "R1" "alice@example.com" None []));
      vm_compute; reflexivity.
  - assert (return_original_new_release "B2" "R2" (d_2025_10_01 + 9) b2_on_loan =
            Ok tt (after [ReturnOriginal "B2" "R2" (d_2025_10_01 + 9)] b2_on_loan)) as Hret
      by (vm_compute; reflexivity).
    apply (proj2 (proj2 (Hback "B2" "R2" (d_2025_10_01 + 9) _ Hret))
             (Book.mk "B2" "Clean C++ (New Release)" 2025
                      (Author.mk "Some Author" "1980-01-01") "1st" true)
             "R1" (Reader.mk "R1" "alice@example.com" None []));
      try (vm_compute; reflexivity).
    unfold MINORDINAL, MAXORDINAL, d_2025_10_01. lia.
Defined.

(** A call that raises may have written to the store.  With R7, unknown to the
    store, subscribed to B2, the return of the original of B2 by R2 raises
    [KeyError] from the notification, after the return is complete: B2 is out
    of the borrowed originals and none of its loans is open, so R1 can borrow
    the original. *)
Example raising_return_keeps_originals_consistent :
  ∃ w',
    return_original_new_release "B2" "R2" (d_2025_10_01 + 9) b2_on_loan_unknown_subscriber =
      Raise (KeyError "R7") w' ∧
    w' = after [ReturnOriginal "B2" "R2" (d_2025_10_01 + 9)] b2_on_loan_unknown_subscriber ∧
    db w' ≠ db b2_on_loan_unknown_subscriber ∧
    newReleaseBorrowed (db w') = ∅ ∧
    count_loans (is_open_original "B2") (loans (db w')) = 0%nat ∧
    ∃ w'', borrow_original_new_release "B2" "R1" (d_2025_10_01 + 9) w' = Ok "L2" w''.
Proof.
  eexists. split; [vm_compute; reflexivity|].
  split_and!; try (vm_compute; reflexivity).
  - intros Heq. apply (f_equal (λ d, length (elements (newReleaseBorrowed d)))) in Heq.
    vm_compute in Heq. discriminate.
  - eexists. vm_compute. reflexivity.
Qed.
